(** * coreos-metadata: the command [internal/main.go]

    A shallow embedding of the program's [main] package: the kernel command
    line parser [parseCmdline], the provider dispatch [fetchMetadata], the
    attribute writer [writeVariable] / [writeMetadataAttributes], the key
    installer [writeMetadataKeys] and the orchestration in [main].

    Go strings are byte sequences: they are modelled by [string], whose
    characters are the 256 byte values.  The parts of the Go standard
    library the program calls ([strings.Split], [strings.SplitN],
    [strings.TrimSpace], [strings.Join]) are modelled next to it. *)

From Stdlib Require Import ZArith Ascii.
From stdpp Require Import base strings list gmap.

Local Open Scope Z_scope.

(** ** Go standard library: package [unicode/utf8] and [unicode] *)

Module utf8.

Definition RuneError : Z := 0xFFFD.
Definition RuneSelf : Z := 0x80.
Definition UTFMax : Z := 4.

Definition byte (c : ascii) : Z := Z.of_N (N_of_ascii c).

(** The table [first] together with [acceptRanges]: for a leading byte,
    the length of the sequence and the range the second byte has to lie
    in; [None] for the bytes that start no sequence. *)
Definition first (s0 : Z) : option (Z * Z * Z) :=
  if (0xC2 <=? s0) && (s0 <=? 0xDF) then Some (2, 0x80, 0xBF)
  else if s0 =? 0xE0 then Some (3, 0xA0, 0xBF)
  else if (0xE1 <=? s0) && (s0 <=? 0xEC) then Some (3, 0x80, 0xBF)
  else if s0 =? 0xED then Some (3, 0x80, 0x9F)
  else if (0xEE <=? s0) && (s0 <=? 0xEF) then Some (3, 0x80, 0xBF)
  else if s0 =? 0xF0 then Some (4, 0x90, 0xBF)
  else if (0xF1 <=? s0) && (s0 <=? 0xF3) then Some (4, 0x80, 0xBF)
  else if s0 =? 0xF4 then Some (4, 0x80, 0x8F)
  else None.

Definition continuation (b : Z) : bool := (0x80 <=? b) && (b <=? 0xBF).

(** [utf8.DecodeRuneInString]: the first rune of [s] and its width in
    bytes; [(RuneError, 0)] for the empty string and [(RuneError, 1)] for
    an encoding that is not valid. *)
Definition DecodeRuneInString (s : string) : Z * nat :=
  match s with
  | EmptyString => (RuneError, 0%nat)
  | String c0 t0 =>
    let s0 := byte c0 in
    if s0 <? RuneSelf then (s0, 1%nat)
    else
      match first s0, t0 with
      | None, _ => (RuneError, 1%nat)
      | Some _, EmptyString => (RuneError, 1%nat)
      | Some (sz, lo, hi), String c1 t1 =>
        let s1 := byte c1 in
        if (s1 <? lo) || (hi <? s1) then (RuneError, 1%nat)
        else if sz <=? 2 then
          (Z.lor (Z.shiftl (Z.land s0 0x1F) 6) (Z.land s1 0x3F), 2%nat)
        else
          match t1 with
          | EmptyString => (RuneError, 1%nat)
          | String c2 t2 =>
            let s2 := byte c2 in
            if negb (continuation s2) then (RuneError, 1%nat)
            else if sz <=? 3 then
              (Z.lor (Z.lor (Z.shiftl (Z.land s0 0x0F) 12)
                            (Z.shiftl (Z.land s1 0x3F) 6))
                     (Z.land s2 0x3F), 3%nat)
            else
              match t2 with
              | EmptyString => (RuneError, 1%nat)
              | String c3 _ =>
                let s3 := byte c3 in
                if negb (continuation s3) then (RuneError, 1%nat)
                else
                  (Z.lor (Z.lor (Z.lor (Z.shiftl (Z.land s0 0x07) 18)
                                       (Z.shiftl (Z.land s1 0x3F) 12))
                                (Z.shiftl (Z.land s2 0x3F) 6))
                         (Z.land s3 0x3F), 4%nat)
              end
          end
      end
  end.

(** [utf8.RuneStart]: the byte is not a continuation byte. *)
Definition RuneStart (b : Z) : bool := negb (Z.land b 0xC0 =? 0x80).

Definition byte_at (s : string) (i : Z) : Z :=
  match String.get (Z.to_nat i) s with
  | Some c => byte c
  | None => 0
  end.

(** The loop [for start--; start >= lim; start-- { if RuneStart(s[start])
    { break } }] of [DecodeLastRuneInString]; it runs at most [UTFMax - 1]
    times, which bounds [n]. *)
Fixpoint back_to_start (n : nat) (s : string) (start lim : Z) : Z :=
  match n with
  | O => start
  | S n' =>
    if start <? lim then start
    else if RuneStart (byte_at s start) then start
    else back_to_start n' s (start - 1) lim
  end.

(** [utf8.DecodeLastRuneInString]: the last rune of [s] and its width. *)
Definition DecodeLastRuneInString (s : string) : Z * nat :=
  let fin := Z.of_nat (String.length s) in
  if fin =? 0 then (RuneError, 0%nat)
  else
    let r := byte_at s (fin - 1) in
    if r <? RuneSelf then (r, 1%nat)
    else
      let lim := Z.max 0 (fin - UTFMax) in
      let start := back_to_start 4 s (fin - 2) lim in
      let start := Z.max 0 start in
      let '(r, size) :=
        DecodeRuneInString
          (String.substring (Z.to_nat start) (Z.to_nat (fin - start)) s) in
      if start + Z.of_nat size =? fin then (r, size) else (RuneError, 1%nat).

End utf8.

Module unicode.

(** [unicode.IsSpace]: the Latin-1 spaces, and outside Latin-1 the code
    points with the property White_Space. *)
Definition IsSpace (r : Z) : bool :=
  if r <=? 0xFF then
    (r =? 0x09) || (r =? 0x0A) || (r =? 0x0B) || (r =? 0x0C) || (r =? 0x0D)
    || (r =? 0x20) || (r =? 0x85) || (r =? 0xA0)
  else
    (r =? 0x1680) || ((0x2000 <=? r) && (r <=? 0x200A))
    || (r =? 0x2028) || (r =? 0x2029) || (r =? 0x202F)
    || (r =? 0x205F) || (r =? 0x3000).

End unicode.

(** ** Go standard library: package [strings] *)

Module strings.

(** [strings.TrimLeftFunc s f]: [s] without its leading runes that
    satisfy [f].  [skip] counts the bytes of the rune under the cursor
    that are still to be passed. *)
Fixpoint TrimLeftFunc_from (f : Z → bool) (s : string) (skip : nat) : string :=
  match s with
  | EmptyString => EmptyString
  | String _ t =>
    match skip with
    | S k => TrimLeftFunc_from f t k
    | O =>
      let '(r, wid) := utf8.DecodeRuneInString s in
      if f r then TrimLeftFunc_from f t (wid - 1) else s
    end
  end.

Definition TrimLeftFunc (s : string) (f : Z → bool) : string :=
  TrimLeftFunc_from f s 0.

(** [lastIndexFunc s f false], read from the end: the number of bytes
    that stay when the trailing runes satisfying [f] are cut, that is the
    end of the last rune that does not satisfy [f]. *)
Fixpoint TrimRightFunc_len (f : Z → bool) (s : string) (i skip : nat) : nat :=
  match i with
  | O => O
  | S i' =>
    match skip with
    | S k => TrimRightFunc_len f s i' k
    | O =>
      let '(r, size) := utf8.DecodeLastRuneInString (String.substring 0 i s) in
      if f r then TrimRightFunc_len f s i' (size - 1) else i
    end
  end.

Definition TrimRightFunc (s : string) (f : Z → bool) : string :=
  String.substring 0 (TrimRightFunc_len f s (String.length s) 0) s.

Definition TrimFunc (s : string) (f : Z → bool) : string :=
  TrimRightFunc (TrimLeftFunc s f) f.

(** [strings.TrimSpace] *)
Definition TrimSpace (s : string) : string := TrimFunc s unicode.IsSpace.

(** [strings.Index s sep] followed by the two slices [s[:m]] and
    [s[m+1:]], for a separator [sep] of one byte (the program only
    splits on [" "] and ["="]); [None] when [sep] does not occur. *)
Fixpoint cut (s : string) (sep : ascii) : option (string * string) :=
  match s with
  | EmptyString => None
  | String c t =>
    if decide (c = sep) then Some (EmptyString, t)
    else '(a, b) ← cut t sep; Some (String c a, b)
  end.

(** The loop of [genSplit] with [k] separators still allowed. *)
Fixpoint genSplit (s : string) (sep : ascii) (k : nat) : list string :=
  match k with
  | O => [s]
  | S k' =>
    match cut s sep with
    | None => [s]
    | Some (a, b) => a :: genSplit b sep k'
    end
  end.

(** [strings.Count s sep] for a one-byte separator. *)
Fixpoint Count (s : string) (sep : ascii) : nat :=
  match s with
  | EmptyString => O
  | String c t => if decide (c = sep) then S (Count t sep) else Count t sep
  end.

(** [strings.SplitN s sep n]: at most [n] pieces when [n > 0], no piece
    when [n = 0], every piece when [n < 0]. *)
Definition SplitN (s : string) (sep : ascii) (n : Z) : list string :=
  if n =? 0 then []
  else if n <? 0 then genSplit s sep (Count s sep)
  else genSplit s sep (Z.to_nat (n - 1)).

(** [strings.Split s sep] is [SplitN s sep (-1)]. *)
Definition Split (s : string) (sep : ascii) : list string := SplitN s sep (-1).

(** [strings.Join] *)
Fixpoint Join (elems : list string) (sep : string) : string :=
  match elems with
  | [] => ""
  | [a] => a
  | a :: rest => a +:+ sep +:+ Join rest sep
  end.

End strings.

(** ** [parseCmdline] *)

Definition cmdlinePath : string := "/proc/cmdline".
Definition cmdlineOEMFlag : string := "coreos.oem.id".

(** One turn of the loop of [parseCmdline].  Indexing a slice out of range
    is a run-time panic in Go: [None] stands for it. *)
Definition parseCmdline_arg (oem arg : string) : option string :=
  let parts := strings.SplitN (strings.TrimSpace arg) "=" 2 in
  key ← parts !! 0%nat;
  if decide (key ≠ cmdlineOEMFlag) then Some oem
  else if decide (length parts = 2%nat) then parts !! 1%nat
  else Some oem.

Fixpoint parseCmdline_range (args : list string) (oem : string) : option string :=
  match args with
  | [] => Some oem
  | arg :: rest => oem' ← parseCmdline_arg oem arg; parseCmdline_range rest oem'
  end.

Definition parseCmdline (cmdline : string) : option string :=
  parseCmdline_range (strings.Split cmdline " ") "".

(** ** The process and what is outside of it

    The program talks to the operating system, to the metadata service of
    the cloud provider and to the authorized-keys directory of a user.
    Every such call is recorded in the [trace] of the [World]; what the call
    answers is decided by the environment [Env], which sees the world at the
    time of the call (and so the whole history). *)

(** The line feed, written "\n" in Go. *)
Definition LF : string := String "010"%char "".

(** A non-nil Go [error], by the text [Error()] returns. *)
Definition error : Type := string.

(** A Go result pair [(value, err)]. *)
Inductive res (A : Type) : Type :=
| ok (a : A)
| fail (err : error).
Arguments ok {A} a.
Arguments fail {A} err.

(** [os/user.User] *)
Record User : Type := {
  Uid : string;
  Gid : string;
  Username : string;
  Name : string;
  HomeDir : string;
}.

(** The provider packages [azure], [ec2], [gce] and [packet]. *)
Inductive package : Type := azure | ec2 | gce | packet.

Inductive event : Type :=
| Stdout (text : string)                    (* fmt.Println *)
| Stderr (text : string)                    (* fmt.Fprintf(os.Stderr, ...) *)
| ReadFile (filename : string)              (* ioutil.ReadFile *)
| FetchMetadata (pkg : package)             (* <pkg>.FetchMetadata() *)
| MkdirAll (dir : string) (perm : Z)        (* os.MkdirAll *)
| Create (name : string)                    (* os.Create *)
| Write (name : string) (data : string)     (* os.File.Write, under fmt.Fprintf *)
| Close (name : string)                     (* os.File.Close *)
| Lookup (username : string)                (* user.Lookup *)
| AkdOpen (usr : User) (create : bool)      (* authorized_keys_d.Open *)
| AkdAdd (usr : User) (name keys : string) (replace force : bool)
                                            (* SSHAuthorizedKeysDir.Add *)
| AkdSync (usr : User)                      (* SSHAuthorizedKeysDir.Sync *)
| AkdClose (usr : User).                    (* SSHAuthorizedKeysDir.Close *)

(** Go maps and slices are references: the objects live in the heap and a
    [Metadata] value holds their addresses, so that a callee that wrote
    through them would change what the caller sees. *)
Definition loc : Type := positive.

Record Heap : Type := {
  maps : gmap loc (gmap string string);     (* map[string]string objects *)
  arrays : gmap loc (list string);          (* backing arrays of []string *)
}.

(** Modelled from the spec: the struct [providers.Metadata], whose
    declaration (package [internal/providers]) is not among the sources;
    §3 of the specification gives it an attribute mapping and a sequence of
    key lines that may be absent, and [main.go] ranges over
    [metadata.Attributes] with string keys and values and compares
    [metadata.SshKeys] with [nil] before joining it.  [None] is the nil map,
    respectively the nil slice; a non-nil slice spans its backing array. *)
Record Metadata : Type := {
  Attributes : option loc;
  SshKeys : option loc;
}.

(** What a provider hands back, before it is placed in the heap. *)
Record Fetched : Type := {
  fetched_attributes : option (gmap string string);
  fetched_keys : option (list string);
}.

Record World : Type := {
  trace : list event;                       (* calls made so far, oldest first *)
  files : gmap string string;               (* regular files, by name *)
  heap : Heap;
}.

Record Env : Type := {
  (* pure library functions that are not modelled further *)
  strconv_Quote : string → string;          (* the verb %q *)
  path_Dir : string → string;
  (* the order in which [range] visits a map *)
  range_order : World → gmap string string → list (string * string);
  (* answers of the outside world *)
  ioutil_ReadFile : World → string → res string;
  provider_FetchMetadata : World → package → res Fetched;
  os_MkdirAll : World → string → Z → option error;
  os_Create : World → string → option error;
  file_Write : World → string → string → option error;
  file_Close : World → string → option error;
  user_Lookup : World → string → res User;
  akd_Open : World → User → bool → option error;
  akd_Add : World → User → string → string → bool → bool → option error;
  akd_Sync : World → User → option error;
  akd_Close : World → User → option error;
}.

(** The Go specification leaves the iteration order of [range] over a map
    open, but every entry is visited once. *)
Definition range_complete (E : Env) : Prop :=
  ∀ w (m : gmap string string), range_order E w m ≡ₚ map_to_list m.

(** How a computation ends: it returns, the process exits ([os.Exit]), or
    it panics. *)
Inductive outcome (A : Type) : Type :=
| Return (a : A)
| Exit (code : Z)
| Panic (msg : string).
Arguments Return {A} a.
Arguments Exit {A} code.
Arguments Panic {A} msg.

Definition M (A : Type) : Type := World → outcome A * World.

Global Instance M_ret : MRet M := λ A a w, (Return a, w).

Global Instance M_bind : MBind M := λ A B k m w,
  match m w with
  | (Return a, w') => k a w'
  | (Exit code, w') => (Exit code, w')
  | (Panic msg, w') => (Panic msg, w')
  end.

(** [defer d] in a function with body [body]: [d] runs when the body
    returns or panics, its results are dropped; [os.Exit] ends the process
    without running deferred calls. *)
Definition defer {A B : Type} (d : M B) (body : M A) : M A := λ w,
  match body w with
  | (Return a, w') =>
    match d w' with
    | (Return _, w'') => (Return a, w'')
    | (Exit code, w'') => (Exit code, w'')
    | (Panic msg, w'') => (Panic msg, w'')
    end
  | (Exit code, w') => (Exit code, w')
  | (Panic msg, w') =>
    match d w' with
    | (Exit code, w'') => (Exit code, w'')
    | (_, w'') => (Panic msg, w'')
    end
  end.

Definition os_Exit {A : Type} (code : Z) : M A := λ w, (Exit code, w).
Definition panic {A : Type} (msg : string) : M A := λ w, (Panic msg, w).

Definition log (e : event) (w : World) : World :=
  {| trace := trace w ++ [e]; files := files w; heap := heap w |}.

Definition set_files (fs : gmap string string) (w : World) : World :=
  {| trace := trace w; files := fs; heap := heap w |}.

Definition set_heap (h : Heap) (w : World) : World :=
  {| trace := trace w; files := files w; heap := h |}.

(** Placing a fetched value in the heap, at addresses not in use. *)
Definition alloc_map (m : gmap string string) (h : Heap) : loc * Heap :=
  let l := fresh (dom (maps h)) in
  (l, {| maps := <[l := m]> (maps h); arrays := arrays h |}).

Definition alloc_array (a : list string) (h : Heap) : loc * Heap :=
  let l := fresh (dom (arrays h)) in
  (l, {| maps := maps h; arrays := <[l := a]> (arrays h) |}).

Definition place (f : Fetched) (h : Heap) : Metadata * Heap :=
  let '(attrs, h1) :=
    match fetched_attributes f with
    | None => (None, h)
    | Some m => let '(l, h') := alloc_map m h in (Some l, h')
    end in
  let '(keys, h2) :=
    match fetched_keys f with
    | None => (None, h1)
    | Some a => let '(l, h') := alloc_array a h1 in (Some l, h')
    end in
  ({| Attributes := attrs; SshKeys := keys |}, h2).

(** The content of a map or slice value; an address that holds nothing
    reads as empty (Go has no dangling references). *)
Definition map_content (h : Heap) (r : option loc) : gmap string string :=
  match r with
  | None => ∅
  | Some l => default ∅ (maps h !! l)
  end.

Definition slice_content (h : Heap) (r : option loc) : list string :=
  match r with
  | None => []
  | Some l => default [] (arrays h !! l)
  end.

(** The struct [flags] of [main], as [flag.Parse] leaves it. *)
Module flags.
Record t : Type := {
  cmdline : bool;
  provider : string;
  attributes : string;
  sshKeys : string;
  version : bool;
}.
End flags.

Definition version : string := "was not built properly".
Definition versionString : string := "coreos-metadata " +:+ version.

Section program.

Context (E : Env).

(** *** Calls *)

Definition fmt_Println (text : string) : M unit := λ w,
  (Return (), log (Stdout (text +:+ LF)) w).

Definition Fprintf_Stderr (text : string) : M unit := λ w,
  (Return (), log (Stderr text) w).

Definition ReadFile_ (filename : string) : M (res string) := λ w,
  (Return (ioutil_ReadFile E w filename), log (ReadFile filename) w).

Definition FetchMetadata_ (pkg : package) : M (res Metadata) := λ w,
  let w' := log (FetchMetadata pkg) w in
  match provider_FetchMetadata E w pkg with
  | fail err => (Return (fail err), w')
  | ok f => let '(md, h) := place f (heap w) in (Return (ok md), set_heap h w')
  end.

Definition MkdirAll_ (dir : string) (perm : Z) : M (option error) := λ w,
  (Return (os_MkdirAll E w dir perm), log (MkdirAll dir perm) w).

(** [os.Create] truncates the file when it exists. *)
Definition Create_ (name : string) : M (option error) := λ w,
  let w' := log (Create name) w in
  match os_Create E w name with
  | Some err => (Return (Some err), w')
  | None => (Return None, set_files (<[name := ""]> (files w)) w')
  end.

(** A write appends at the end of the open file; what a failed write
    leaves behind is not modelled. *)
Definition Write_ (name data : string) : M (option error) := λ w,
  let w' := log (Write name data) w in
  match file_Write E w name data with
  | Some err => (Return (Some err), w')
  | None =>
    (Return None,
     set_files (<[name := default "" (files w !! name) +:+ data]> (files w)) w')
  end.

Definition Close_ (name : string) : M (option error) := λ w,
  (Return (file_Close E w name), log (Close name) w).

Definition Lookup_ (username : string) : M (res User) := λ w,
  (Return (user_Lookup E w username), log (Lookup username) w).

(** The calls on the authorized-keys store are recorded with what they
    answer; what they do to the store, and to the files the store keeps, is
    not modelled: [files] holds the files written through [os.File]. *)
Definition AkdOpen_ (usr : User) (create : bool) : M (option error) := λ w,
  (Return (akd_Open E w usr create), log (AkdOpen usr create) w).

Definition AkdAdd_ (usr : User) (name keys : string) (replace force : bool)
  : M (option error) := λ w,
  (Return (akd_Add E w usr name keys replace force),
   log (AkdAdd usr name keys replace force) w).

Definition AkdSync_ (usr : User) : M (option error) := λ w,
  (Return (akd_Sync E w usr), log (AkdSync usr) w).

Definition AkdClose_ (usr : User) : M (option error) := λ w,
  (Return (akd_Close E w usr), log (AkdClose usr) w).

(** [for key, value := range m]: the entries of the map in the order of
    this iteration. *)
Definition range_map (m : option loc) : M (list (string * string)) := λ w,
  (Return (range_order E w (map_content (heap w) m)), w).

(** Reading the elements of a slice. *)
Definition read_slice (s : option loc) : M (list string) := λ w,
  (Return (slice_content (heap w) s), w).

(** *** [fetchMetadata] *)

Definition fetchMetadata (provider : string) : M (res Metadata) :=
  if decide (provider = "azure") then FetchMetadata_ azure
  else if decide (provider = "ec2") then FetchMetadata_ ec2
  else if decide (provider = "gce") then FetchMetadata_ gce
  else if decide (provider = "packet") then FetchMetadata_ packet
  else panic "bad provider".

(** *** [writeVariable] and [writeMetadataAttributes] *)

Definition writeVariable (out key value : string) : M (option error) :=
  if decide (0 < String.length value)%nat then
    Write_ out ("COREOS_" +:+ key +:+ "=" +:+ value +:+ LF)
  else mret None.

Fixpoint writeMetadataAttributes_range (out : string)
    (entries : list (string * string)) : M (option error) :=
  match entries with
  | [] => mret None
  | (key, value) :: rest =>
    err ← writeVariable out key value;
    match err with
    | Some e => mret (Some e)
    | None => writeMetadataAttributes_range out rest
    end
  end.

Definition writeMetadataAttributes (attributes : string) (metadata : Metadata)
  : M (option error) :=
  if decide (attributes = "") then mret None
  else
    err ← MkdirAll_ (path_Dir E attributes) 0x1ED (* 0755 *);
    match err with
    | Some e =>
      Fprintf_Stderr ("failed to create directory: " +:+ e +:+ LF);; os_Exit 1
    | None => mret ()
    end;;
    err ← Create_ attributes;
    match err with
    | Some e =>
      Fprintf_Stderr ("failed to create file: " +:+ e +:+ LF);; os_Exit 1
    | None =>
      let out := attributes in
      defer (Close_ out)
        (entries ← range_map (Attributes metadata);
         writeMetadataAttributes_range out entries)
    end.

(** *** [writeMetadataKeys] *)

Definition writeMetadataKeys (username : string) (metadata : Metadata)
  : M (option error) :=
  if decide (username = "" ∨ SshKeys metadata = None) then mret None
  else
    r ← Lookup_ username;
    match r with
    | fail err =>
      mret (Some ("unable to lookup user " +:+ strconv_Quote E username
                  +:+ ": " +:+ err))
    | ok usr =>
      err ← AkdOpen_ usr true;
      match err with
      | Some e => mret (Some e)
      | None =>
        defer (AkdClose_ usr)
          (keys ← read_slice (SshKeys metadata);
           let ks := strings.Join keys LF in
           err ← AkdAdd_ usr "coreos-metadata" ks true true;
           match err with
           | Some e => mret (Some e)
           | None => AkdSync_ usr
           end)
      end
    end.

(** *** [main] *)

Definition main (f : flags.t) : M unit :=
  if flags.version f then fmt_Println versionString
  else
    provider ←
      (if flags.cmdline f && bool_decide (flags.provider f = "") then
         r ← ReadFile_ cmdlinePath;
         match r with
         | fail err =>
           Fprintf_Stderr ("could not read cmdline: " +:+ err +:+ LF);;
           os_Exit 2
         | ok args =>
           match parseCmdline args with
           | Some oem => mret oem
           | None => panic "index out of range"
           end
         end
       else mret (flags.provider f));
    (if decide (provider = "azure" ∨ provider = "ec2"
                ∨ provider = "gce" ∨ provider = "packet")
     then mret ()
     else
       Fprintf_Stderr ("invalid provider " +:+ strconv_Quote E provider +:+ LF);;
       os_Exit 2);;
    r ← fetchMetadata provider;
    match r with
    | fail err =>
      Fprintf_Stderr ("failed to fetch metadata: " +:+ err +:+ LF);;
      os_Exit 1
    | ok metadata =>
      err ← writeMetadataAttributes (flags.attributes f) metadata;
      match err with
      | Some e =>
        Fprintf_Stderr ("failed to write metadata attributes: " +:+ e +:+ LF);;
        os_Exit 1
      | None => mret ()
      end;;
      err ← writeMetadataKeys (flags.sshKeys f) metadata;
      match err with
      | Some e =>
        Fprintf_Stderr ("failed to write metadata keys: " +:+ e +:+ LF);;
        os_Exit 1
      | None => mret ()
      end
    end.

End program.

(** ** Concrete machines

    Environments on which the definitions can be run: every call succeeds,
    the only user is [core], and [range] visits a map in the order of
    [map_to_list], or in the reverse order. *)

Definition core : User :=
  {| Uid := "500"; Gid := "500"; Username := "core"; Name := "CoreOS Admin";
     HomeDir := "/home/core" |}.

(** The verb [%q] on text that needs no escape. *)
Definition quote_plain (s : string) : string :=
  String "034" (s +:+ String "034" "").

(** [path.Dir] on a path that is clean already: what is before the last
    slash. *)
Fixpoint before_last_slash (s : string) : option string :=
  match s with
  | EmptyString => None
  | String c t =>
    match before_last_slash t with
    | Some d => Some (String c d)
    | None => if decide (c = "/"%char) then Some EmptyString else None
    end
  end.

Definition dir_plain (p : string) : string :=
  match before_last_slash p with
  | Some EmptyString => "/"
  | Some d => d
  | None => "."
  end.

Definition machine (order : list (string * string) → list (string * string))
    (answer : res Fetched) : Env :=
  {| strconv_Quote := quote_plain;
     path_Dir := dir_plain;
     range_order := λ _ m, order (map_to_list m);
     ioutil_ReadFile := λ _ _, ok "BOOT_IMAGE=/coreos/vmlinuz coreos.oem.id=ec2";
     provider_FetchMetadata := λ _ _, answer;
     os_MkdirAll := λ _ _ _, None;
     os_Create := λ _ _, None;
     file_Write := λ _ _ _, None;
     file_Close := λ _ _, None;
     user_Lookup := λ _ username,
       if decide (username = "core") then ok core
       else fail ("user: unknown user " +:+ username);
     akd_Open := λ _ _ _, None;
     akd_Add := λ _ _ _ _ _ _, None;
     akd_Sync := λ _ _, None;
     akd_Close := λ _ _, None |}.

Definition sample_attributes : gmap string string :=
  <["A" := "x"]> (<["B" := ""]> (<["C" := "y"]> ∅)).

Definition sample_fetched : Fetched :=
  {| fetched_attributes := Some sample_attributes;
     fetched_keys := Some [] |}.

Definition forward : Env := machine id (ok sample_fetched).
Definition backward : Env := machine reverse (ok sample_fetched).

(** A world in which the sample metadata sits in the heap. *)
Definition sample_world : World :=
  {| trace := [];
     files := ∅;
     heap := {| maps := {[ 1%positive := sample_attributes ]};
                arrays := {[ 1%positive := [] ]} |} |}.

Definition sample_metadata : Metadata :=
  {| Attributes := Some 1%positive; SshKeys := Some 1%positive |}.

(** Command lines: an unknown provider, and a user the machine does not
    have. *)
Definition flags_foo : flags.t :=
  {| flags.cmdline := false; flags.provider := "foo";
     flags.attributes := "/run/metadata/coreos"; flags.sshKeys := "core";
     flags.version := false |}.

Definition flags_nobody : flags.t :=
  {| flags.cmdline := true; flags.provider := "";
     flags.attributes := "/run/metadata/coreos"; flags.sshKeys := "nobody";
     flags.version := false |}.

(** The run of §8 of the specification: [--provider=ec2
    --attributes=/tmp/out --ssh-keys=core] on a machine whose provider
    answers one attribute and one key. *)
Definition flags_ec2 : flags.t :=
  {| flags.cmdline := false; flags.provider := "ec2";
     flags.attributes := "/tmp/out"; flags.sshKeys := "core";
     flags.version := false |}.

Definition region_fetched : Fetched :=
  {| fetched_attributes := Some {[ "REGION" := "us-east-1" ]};
     fetched_keys := Some ["ssh-ed25519 AAAA... key1"] |}.

Definition empty_world : World :=
  {| trace := []; files := ∅; heap := {| maps := ∅; arrays := ∅ |} |}.

(** ** The words of the specification *)

(** §4.1: the boot parameters are split on spaces and every token is
    trimmed. *)
Definition tokens (cmdline : string) : list string :=
  strings.TrimSpace <$> strings.Split cmdline " ".

(** A token [coreos.oem.id=v]. *)
Definition assignment (v : string) : string := cmdlineOEMFlag +:+ "=" +:+ v.

(** §4.1: a token is an occurrence of the designated key when its key part
    is the flag name; its value is what follows the first [=], or the empty
    string when the token is the bare flag. *)
Inductive occurrence : string → string → Prop :=
| occurrence_bare : occurrence cmdlineOEMFlag ""
| occurrence_assignment v : occurrence (assignment v) v.

(** The last occurrence of the designated key in the boot parameters. *)
Definition last_occurrence (cmdline tok : string) : Prop :=
  ∃ pre post,
    tokens cmdline = pre ++ tok :: post
    ∧ (∃ v, occurrence tok v)
    ∧ ∀ t u, t ∈ post → ¬ occurrence t u.

(** The calls made between the world [w] and the later world [w']. *)
Definition calls_since (w w' : World) : list event :=
  drop (length (trace w)) (trace w').

(** The calls on an authorized-keys store. *)
Definition store_call (e : event) : bool :=
  match e with
  | AkdOpen _ _ | AkdAdd _ _ _ _ _ | AkdSync _ | AkdClose _ => true
  | _ => false
  end.

(** Calls among which there is none on an authorized-keys store. *)
Definition quiet (evs : list event) : Prop :=
  Forall (λ e, store_call e = false) evs.

(** A computation that leaves the heap, and with it every map and slice,
    as it found it. *)
Definition keeps_heap {A : Type} (m : M A) : Prop :=
  ∀ w, heap (snd (m w)) = heap w.

Definition panics {A : Type} (o : outcome A) : bool :=
  match o with
  | Panic _ => true
  | _ => false
  end.

(** A computation that does not panic, in whatever world it starts. *)
Definition no_panic {A : Type} (m : M A) : Prop :=
  ∀ w, panics (fst (m w)) = false.

(** §3: the closed set of provider identifiers. *)
Definition closed_set : list string := ["azure"; "ec2"; "gce"; "packet"].

(** §2: the identifier a run validates is the one given with [--provider];
    only with [--cmdline] and no [--provider] it is the one the resolver
    finds in the boot parameters read from [/proc/cmdline]. *)
Definition from_cmdline (f : flags.t) : Prop :=
  flags.cmdline f = true ∧ flags.provider f = "".

Definition resolved (E : Env) (f : flags.t) (w : World) (p : string) : Prop :=
  (¬ from_cmdline f ∧ p = flags.provider f)
  ∨ (from_cmdline f
     ∧ ∃ args, ioutil_ReadFile E w cmdlinePath = ok args
               ∧ parseCmdline args = Some p).

(** §6: the line of an attribute in the output file. *)
Definition line (kv : string * string) : string :=
  "COREOS_" +:+ kv.1 +:+ "=" +:+ kv.2 +:+ LF.

(** §4.3: attributes whose value is the empty string are skipped. *)
Definition populated (kv : string * string) : Prop := kv.2 ≠ "".

Global Instance populated_dec kv : Decision (populated kv).
Proof. unfold populated. apply _. Defined.

(** The content of a file made of the given lines. *)
Definition text (lines : list string) : string := foldr String.append "" lines.

(** The calls the attribute writer makes on the file system all succeed. *)
Definition fs_ok (E : Env) (attributes : string) : Prop :=
  (∀ w perm, os_MkdirAll E w (path_Dir E attributes) perm = None)
  ∧ (∀ w, os_Create E w attributes = None)
  ∧ (∀ w data, file_Write E w attributes data = None).

(** ** More vocabulary *)

(** The byte [c] does not occur in [s]. *)
Definition free_of (c : ascii) (s : string) : Prop := strings.Count s c = 0%nat.

(** The boot parameters carry an assignment of the designated key. *)
Definition assigned (cmdline : string) : Prop :=
  ∃ v, assignment v ∈ tokens cmdline.

(** The identifier of a provider package. *)
Definition package_name (pkg : package) : string :=
  match pkg with
  | azure => "azure"
  | ec2 => "ec2"
  | gce => "gce"
  | packet => "packet"
  end.

(** The calls of the attribute writer: on the file system, and its
    complaints on standard error. *)
Definition attribute_call (e : event) : bool :=
  match e with
  | MkdirAll _ _ | Create _ | Write _ _ | Close _ | Stderr _ => true
  | _ => false
  end.

(** The calls of the key installer: the user data base and the store. *)
Definition key_call (e : event) : bool :=
  match e with
  | Lookup _ => true
  | _ => store_call e
  end.

Definition reads_file (e : event) : bool :=
  match e with
  | ReadFile _ => true
  | _ => false
  end.

(** The world in which [main] validates the provider: the boot parameters
    have been read when the identifier comes from there. *)
Definition after_resolve (f : flags.t) (w : World) : World :=
  if flags.cmdline f && bool_decide (flags.provider f = "")
  then log (ReadFile cmdlinePath) w
  else w.

(** The ways in which a run of [main] ends, by the step that ends it. *)
Inductive main_run (E : Env) (f : flags.t) (w : World)
  : outcome unit → World → Prop :=
| run_version :
    flags.version f = true →
    main_run E f w (Return ()) (log (Stdout (versionString +:+ LF)) w)
| run_unreadable err :
    flags.version f = false →
    from_cmdline f →
    ioutil_ReadFile E w cmdlinePath = fail err →
    main_run E f w (Exit 2)
      (log (Stderr ("could not read cmdline: " +:+ err +:+ LF))
         (log (ReadFile cmdlinePath) w))
| run_invalid p :
    flags.version f = false →
    resolved E f w p →
    p ∉ closed_set →
    main_run E f w (Exit 2)
      (log (Stderr ("invalid provider " +:+ strconv_Quote E p +:+ LF))
         (after_resolve f w))
| run_fetch_failed pkg err :
    flags.version f = false →
    resolved E f w (package_name pkg) →
    provider_FetchMetadata E (after_resolve f w) pkg = fail err →
    main_run E f w (Exit 1)
      (log (Stderr ("failed to fetch metadata: " +:+ err +:+ LF))
         (log (FetchMetadata pkg) (after_resolve f w)))
| run_attributes_exit pkg md w2 w3 :
    flags.version f = false →
    resolved E f w (package_name pkg) →
    FetchMetadata_ E pkg (after_resolve f w) = (Return (ok md), w2) →
    writeMetadataAttributes E (flags.attributes f) md w2 = (Exit 1, w3) →
    main_run E f w (Exit 1) w3
| run_attributes_failed pkg md w2 w3 e :
    flags.version f = false →
    resolved E f w (package_name pkg) →
    FetchMetadata_ E pkg (after_resolve f w) = (Return (ok md), w2) →
    writeMetadataAttributes E (flags.attributes f) md w2
    = (Return (Some e), w3) →
    main_run E f w (Exit 1)
      (log (Stderr ("failed to write metadata attributes: " +:+ e +:+ LF)) w3)
| run_keys_failed pkg md w2 w3 w4 e :
    flags.version f = false →
    resolved E f w (package_name pkg) →
    FetchMetadata_ E pkg (after_resolve f w) = (Return (ok md), w2) →
    writeMetadataAttributes E (flags.attributes f) md w2 = (Return None, w3) →
    writeMetadataKeys E (flags.sshKeys f) md w3 = (Return (Some e), w4) →
    main_run E f w (Exit 1)
      (log (Stderr ("failed to write metadata keys: " +:+ e +:+ LF)) w4)
| run_done pkg md w2 w3 w4 :
    flags.version f = false →
    resolved E f w (package_name pkg) →
    FetchMetadata_ E pkg (after_resolve f w) = (Return (ok md), w2) →
    writeMetadataAttributes E (flags.attributes f) md w2 = (Return None, w3) →
    writeMetadataKeys E (flags.sshKeys f) md w3 = (Return None, w4) →
    main_run E f w (Return ()) w4.

(** The world in which the attribute writer ranges over the attributes:
    the directory has been made and the file created, empty. *)
Definition created (E : Env) (attributes : string) (w : World) : World :=
  set_files (<[attributes := ""]> (files w))
    (log (Create attributes)
       (log (MkdirAll (path_Dir E attributes) 0x1ED) w)).

(** More machines: the calls named fail with the errors given, the others
    succeed; the boot parameters and the answer of the provider are given
    as well. *)
Definition faulty (cmdline : res string) (answer : res Fetched)
    (mkdir create write open add sync : option error) : Env :=
  {| strconv_Quote := quote_plain;
     path_Dir := dir_plain;
     range_order := λ _ m, map_to_list m;
     ioutil_ReadFile := λ _ _, cmdline;
     provider_FetchMetadata := λ _ _, answer;
     os_MkdirAll := λ _ _ _, mkdir;
     os_Create := λ _ _, create;
     file_Write := λ _ _ _, write;
     file_Close := λ _ _, None;
     user_Lookup := λ _ username,
       if decide (username = "core") then ok core
       else fail ("user: unknown user " +:+ username);
     akd_Open := λ _ _ _, open;
     akd_Add := λ _ _ _ _ _ _, add;
     akd_Sync := λ _ _, sync;
     akd_Close := λ _ _, None |}.

(** Machines with one fault each. *)
Definition disk_full : Env :=
  faulty (fail "") (fail "") None None (Some "disk full") None None None.
Definition read_only : Env :=
  faulty (fail "") (fail "") (Some "read-only file system") None None None None
    None.
Definition no_create : Env :=
  faulty (fail "") (fail "") None (Some "permission denied") None None None None.
Definition no_answer : Env :=
  faulty (fail "") (fail "connection refused") None None None None None None.
Definition no_cmdline : Env :=
  faulty (fail "permission denied") (fail "") None None None None None None.
Definition read_only_fetched : Env :=
  faulty (fail "") (ok sample_fetched) (Some "read-only file system") None None
    None None None.
Definition timeout : Env :=
  faulty (fail "") (fail "timeout") None None None None None None.
Definition no_open : Env :=
  faulty (fail "") (fail "") None None None (Some "permission denied") None None.
Definition no_add : Env :=
  faulty (fail "") (fail "") None None None None (Some "no space left on device")
    None.
Definition no_sync : Env :=
  faulty (fail "") (fail "") None None None None None (Some "input/output error").

Definition two_keys : list string :=
  ["ssh-rsa AAAAB3 core@a"; "ssh-ed25519 AAAAC3 core@b"].

(** A world with the sample attributes and two keys in the heap. *)
Definition keys_world : World :=
  {| trace := [];
     files := {[ "/etc/hostname" := "node1" ]};
     heap := {| maps := {[ 1%positive := sample_attributes ]};
                arrays := {[ 1%positive := two_keys ]} |} |}.

(** * Theorems *)

(** ** The model at work *)

Example Split_spaces :
  strings.Split " a  b " " " = [""; "a"; ""; "b"; ""]
  ∧ strings.Split "" " " = [""].
Proof. split; reflexivity. Qed.

Example SplitN_first_equals :
  strings.SplitN "a=b=c" "=" 2 = ["a"; "b=c"]
  ∧ strings.SplitN "quiet" "=" 2 = ["quiet"]
  ∧ strings.SplitN "" "=" 2 = [""].
Proof. repeat split; reflexivity. Qed.

(** Tab, line feed and the no-break space U+00A0 (bytes C2 A0) are cut;
    the space inside stays. *)
Example TrimSpace_unicode :
  strings.TrimSpace
    (String "009" (String "194" (String "160"
       ("a b" +:+ String "194" (String "160" LF)))))
  = "a b".
Proof. reflexivity. Qed.

Example parseCmdline_without_flag :
  parseCmdline "" = Some ""
  ∧ parseCmdline "BOOT_IMAGE=/coreos/vmlinuz ro quiet" = Some "".
Proof. split; reflexivity. Qed.

Example parseCmdline_trims_tokens :
  parseCmdline ("root=LABEL=ROOT coreos.oem.id=packet" +:+ LF) = Some "packet".
Proof. reflexivity. Qed.

Example Join_keys :
  strings.Join [] LF = ""
  ∧ strings.Join ["k1"; "k2"] LF = "k1" +:+ LF +:+ "k2".
Proof. split; reflexivity. Qed.

Example main_end_to_end :
  fst (main (machine id (ok region_fetched)) flags_ec2 empty_world) = Return ()
  ∧ files (snd (main (machine id (ok region_fetched)) flags_ec2 empty_world))
      !! "/tmp/out" = Some ("COREOS_REGION=us-east-1" +:+ LF)
  ∧ trace (snd (main (machine id (ok region_fetched)) flags_ec2 empty_world))
    = [FetchMetadata ec2; MkdirAll "/tmp" 0x1ED; Create "/tmp/out";
       Write "/tmp/out" ("COREOS_REGION=us-east-1" +:+ LF); Close "/tmp/out";
       Lookup "core"; AkdOpen core true;
       AkdAdd core "coreos-metadata" "ssh-ed25519 AAAA... key1" true true;
       AkdSync core; AkdClose core].
Proof. repeat split; reflexivity. Qed.

Example main_version :
  main forward
    {| flags.cmdline := false; flags.provider := "foo"; flags.attributes := "";
       flags.sshKeys := ""; flags.version := true |} empty_world
  = (Return (), log (Stdout ("coreos-metadata was not built properly" +:+ LF))
                  empty_world).
Proof. reflexivity. Qed.

(** ** Splitting *)

Lemma cut_Some s sep a b :
  strings.cut s sep = Some (a, b) → s = a +:+ String sep b.
Proof.
  revert a b. induction s as [|c s IH]; intros a b; simpl; [done|].
  case_decide as Hc.
  - intros [= <- <-]. by subst.
  - destruct (strings.cut s sep) as [[a' b']|]; simpl; [|done].
    intros [= <- <-]. by rewrite (IH a' b' eq_refl) at 1.
Qed.

Lemma SplitN_2 s sep :
  strings.SplitN s sep 2 =
  match strings.cut s sep with
  | None => [s]
  | Some (a, b) => [a; b]
  end.
Proof.
  unfold strings.SplitN. simpl.
  by destruct (strings.cut s sep) as [[a b]|].
Qed.

Lemma cut_assignment v :
  strings.cut (assignment v) "=" = Some (cmdlineOEMFlag, v).
Proof. reflexivity. Qed.

(** ** One turn of the loop of [parseCmdline] *)

Lemma parseCmdline_arg_assignment oem arg v :
  strings.TrimSpace arg = assignment v → parseCmdline_arg oem arg = Some v.
Proof.
  intros Htok. unfold parseCmdline_arg.
  by rewrite SplitN_2, Htok, cut_assignment.
Qed.

Lemma parseCmdline_arg_other oem arg :
  (∀ v, strings.TrimSpace arg ≠ assignment v) →
  parseCmdline_arg oem arg = Some oem.
Proof.
  intros Htok. unfold parseCmdline_arg. rewrite SplitN_2.
  destruct (strings.cut (strings.TrimSpace arg) "=") as [[a b]|] eqn:Hcut; simpl.
  - case_decide as Hkey; [done|].
    destruct (Htok b). apply cut_Some in Hcut. rewrite Hcut.
    by subst a.
  - by case_decide.
Qed.

Lemma parseCmdline_arg_cases oem arg :
  (∃ v, strings.TrimSpace arg = assignment v ∧ parseCmdline_arg oem arg = Some v)
  ∨ ((∀ v, strings.TrimSpace arg ≠ assignment v)
     ∧ parseCmdline_arg oem arg = Some oem).
Proof.
  destruct (strings.cut (strings.TrimSpace arg) "=") as [[a b]|] eqn:Hcut.
  - destruct (decide (a = cmdlineOEMFlag)) as [->|Hne].
    + left. exists b. apply cut_Some in Hcut.
      split; [done|]. by apply parseCmdline_arg_assignment.
    + right. assert (∀ v, strings.TrimSpace arg ≠ assignment v) as Hno.
      { intros v Hv. rewrite Hv, cut_assignment in Hcut. congruence. }
      split; [done|]. by apply parseCmdline_arg_other.
  - right. assert (∀ v, strings.TrimSpace arg ≠ assignment v) as Hno.
    { intros v Hv. rewrite Hv, cut_assignment in Hcut. congruence. }
    split; [done|]. by apply parseCmdline_arg_other.
Qed.

(** ** The loop of [parseCmdline] *)

Lemma parseCmdline_range_total args oem :
  is_Some (parseCmdline_range args oem).
Proof.
  revert oem. induction args as [|arg args IH]; intros oem; simpl; [by eexists|].
  destruct (parseCmdline_arg_cases oem arg) as [(v & _ & ->)|[_ ->]]; simpl; apply IH.
Qed.

Lemma parseCmdline_range_no_assignment args oem :
  (∀ t v, t ∈ strings.TrimSpace <$> args → t ≠ assignment v) →
  parseCmdline_range args oem = Some oem.
Proof.
  induction args as [|arg args IH]; intros Hno; simpl; [done|].
  rewrite parseCmdline_arg_other; simpl.
  - apply IH. intros t v Ht. apply Hno. rewrite fmap_cons. by right.
  - intros v. apply Hno. rewrite fmap_cons. by left.
Qed.

Lemma parseCmdline_range_last_assignment pre : ∀ args oem v post,
  strings.TrimSpace <$> args = pre ++ assignment v :: post →
  (∀ t u, t ∈ post → t ≠ assignment u) →
  parseCmdline_range args oem = Some v.
Proof.
  induction pre as [|t pre IH]; intros [|arg args] oem v post Hsplit Hpost;
    simplify_eq/=.
  - rewrite (parseCmdline_arg_assignment _ _ v); [simpl|done].
    by apply parseCmdline_range_no_assignment.
  - destruct (parseCmdline_arg_cases oem arg) as [(u & _ & ->)|[_ ->]]; simpl;
      by eapply IH.
Qed.

(** The bare flag is no assignment: the turn of the loop that meets it
    leaves the recorded value as it is. *)
Lemma parseCmdline_arg_bare oem arg :
  strings.TrimSpace arg = cmdlineOEMFlag → parseCmdline_arg oem arg = Some oem.
Proof.
  intros Htok. apply parseCmdline_arg_other. intros v. by rewrite Htok.
Qed.

(** When every assignment of the flag carries the empty value, so does the
    result. *)
Lemma parseCmdline_range_empty_values args :
  (∀ t u, t ∈ strings.TrimSpace <$> args → t = assignment u → u = "") →
  parseCmdline_range args "" = Some "".
Proof.
  induction args as [|arg args IH]; intros Hval; simpl; [done|].
  destruct (parseCmdline_arg_cases "" arg) as [(u & Hu & ->)|[_ ->]]; simpl.
  - assert (u = "") as ->.
    { apply (Hval (strings.TrimSpace arg)); [rewrite fmap_cons; by left|done]. }
    apply IH. intros t u' Ht. apply Hval. rewrite fmap_cons. by right.
  - apply IH. intros t u' Ht. apply Hval. rewrite fmap_cons. by right.
Qed.

Lemma occurrence_not_assignment t :
  (∀ u, ¬ occurrence t u) → ∀ v, t ≠ assignment v.
Proof. intros Hno v ->. apply (Hno v). constructor. Qed.

(** ** The boot-parameter resolver *)

(** C1, as amended: the resolver returns the value of the last token of the
    form [coreos.oem.id=value]; tokens after it that are no such assignment,
    the bare flag among them, do not change the result.  For the boot
    parameters [foo=1 coreos.oem.id=azure bar coreos.oem.id=ec2] the result
    is [ec2]. *)
Theorem parseCmdline_last_assignment :
  (∀ cmdline pre v post,
     tokens cmdline = pre ++ assignment v :: post →
     (∀ t u, t ∈ post → t ≠ assignment u) →
     parseCmdline cmdline = Some v)
  ∧ parseCmdline "foo=1 coreos.oem.id=azure bar coreos.oem.id=ec2" = Some "ec2".
Proof.
  split; [|reflexivity].
  intros cmdline pre v post Htokens Hpost. unfold parseCmdline.
  by eapply parseCmdline_range_last_assignment.
Qed.

(** The assignment of [gce] wins over the earlier one and over the bare
    flag and the other tokens behind it. *)
Lemma parseCmdline_last_assignment_gce :
  tokens "coreos.oem.id=ec2 coreos.oem.id=gce coreos.oem.id ro"
  = ["coreos.oem.id=ec2"] ++ assignment "gce" :: ["coreos.oem.id"; "ro"]
  ∧ parseCmdline "coreos.oem.id=ec2 coreos.oem.id=gce coreos.oem.id ro"
    = Some "gce".
Proof.
  split; [reflexivity|].
  apply (proj1 parseCmdline_last_assignment _ ["coreos.oem.id=ec2"] "gce"
           ["coreos.oem.id"; "ro"]); [reflexivity|].
  intros t u Ht Hu. subst t.
  apply elem_of_cons in Ht as [Ht|Ht]; [discriminate Ht|].
  apply list_elem_of_singleton in Ht. discriminate Ht.
Defined.

(** C1, as stated, fails when the last occurrence of the key is the bare
    flag: its value is the empty string, yet the value of the earlier
    assignment is returned. *)
Lemma parseCmdline_bare_flag_after_gce :
  last_occurrence "coreos.oem.id=gce coreos.oem.id" cmdlineOEMFlag
  ∧ occurrence cmdlineOEMFlag ""
  ∧ parseCmdline "coreos.oem.id=gce coreos.oem.id" = Some "gce".
Proof.
  split; [|split; [constructor|reflexivity]].
  exists ["coreos.oem.id=gce"], []. split; [reflexivity|].
  split; [eexists; constructor|]. intros t u Ht. inversion Ht.
Qed.

(** C2, as amended: when the last occurrence of the key is the token
    [coreos.oem.id=], the result is the empty string whatever came before;
    when it is the bare flag, the result is the empty string provided no
    earlier assignment of the flag carries a value. *)
Theorem parseCmdline_empty_value cmdline pre tok post :
  tokens cmdline = pre ++ tok :: post →
  (∀ t u, t ∈ post → ¬ occurrence t u) →
  tok = assignment ""
  ∨ (tok = cmdlineOEMFlag ∧ ∀ t u, t ∈ pre → t = assignment u → u = "") →
  parseCmdline cmdline = Some "".
Proof.
  intros Htokens Hpost [->|[-> Hpre]].
  - unfold parseCmdline.
    apply (parseCmdline_range_last_assignment pre _ _ "" post); [done|].
    intros t u Ht. apply occurrence_not_assignment. intros u'. by apply Hpost.
  - unfold parseCmdline. apply parseCmdline_range_empty_values.
    fold (tokens cmdline). rewrite Htokens.
    intros t u [Ht|[Ht|Ht]%elem_of_cons]%elem_of_app Hu.
    + by eapply Hpre.
    + subst t. discriminate Hu.
    + destruct (Hpost t u Ht). subst t. constructor.
Qed.

Lemma parseCmdline_empty_value_trailing_equals :
  (tokens "coreos.oem.id=azure quiet coreos.oem.id= ro"
   = ["coreos.oem.id=azure"; "quiet"] ++ "coreos.oem.id=" :: ["ro"]
   ∧ parseCmdline "coreos.oem.id=azure quiet coreos.oem.id= ro" = Some "")
  ∧ (tokens "coreos.oem.id= coreos.oem.id"
     = ["coreos.oem.id="] ++ "coreos.oem.id" :: []
     ∧ parseCmdline "coreos.oem.id= coreos.oem.id" = Some "").
Proof.
  split; (split; [reflexivity|]).
  - apply (parseCmdline_empty_value _ ["coreos.oem.id=azure"; "quiet"]
             "coreos.oem.id=" ["ro"]); [reflexivity| |by left].
    intros t u Ht Hocc. apply list_elem_of_singleton in Ht. subst t.
    inversion Hocc.
  - apply (parseCmdline_empty_value _ ["coreos.oem.id="] "coreos.oem.id" []);
      [reflexivity| |right; split; [reflexivity|]].
    + intros t u Ht. inversion Ht.
    + intros t u Ht Hu. apply list_elem_of_singleton in Ht. subst t.
      by injection Hu.
Defined.

(** C2, as stated, fails for the bare flag: after an assignment with a
    value, the bare flag does not reset the result to the empty string. *)
Lemma parseCmdline_bare_flag_after_azure :
  last_occurrence "coreos.oem.id=azure coreos.oem.id" cmdlineOEMFlag
  ∧ parseCmdline "coreos.oem.id=azure coreos.oem.id" = Some "azure".
Proof.
  split; [|reflexivity].
  exists ["coreos.oem.id=azure"], []. split; [reflexivity|].
  split; [eexists; constructor|]. intros t u Ht. inversion Ht.
Qed.

(** ** Running the process *)

Lemma calls_since_refl w : calls_since w w = [].
Proof. unfold calls_since. by rewrite drop_all. Qed.

Lemma calls_since_log w w' e :
  (length (trace w) ≤ length (trace w'))%nat →
  calls_since w (log e w') = calls_since w w' ++ [e].
Proof. intros Hle. unfold calls_since. simpl. by rewrite drop_app_le. Qed.

Lemma length_trace_log e w : length (trace (log e w)) = S (length (trace w)).
Proof. simpl. rewrite length_app. simpl. lia. Qed.

Ltac calls :=
  repeat (rewrite calls_since_log by (rewrite ?length_trace_log; lia));
  rewrite ?calls_since_refl; simpl.

Ltac run :=
  unfold mbind, M_bind, mret, M_ret, defer, os_Exit, panic,
    fmt_Println, Fprintf_Stderr, ReadFile_, MkdirAll_, Create_, Write_, Close_,
    Lookup_, AkdOpen_, AkdAdd_, AkdSync_, AkdClose_, range_map, read_slice;
  simpl.

(** ** The SSH key installer *)

(** C3: the installer returns success without a call on the store exactly
    when the user name is empty or the keys are nil; with a user name and an
    empty, non-nil key list it looks the user up, opens the store of the
    user it finds and, once the store is open, replaces the block
    [coreos-metadata] by the empty content. *)
Theorem writeMetadataKeys_gate E username md w :
  ((fst (writeMetadataKeys E username md w) = Return None
    ∧ quiet (calls_since w (snd (writeMetadataKeys E username md w))))
   ↔ (username = "" ∨ SshKeys md = None))
  ∧ (username ≠ "" → SshKeys md ≠ None →
     slice_content (heap w) (SshKeys md) = [] →
     ∃ rest,
       calls_since w (snd (writeMetadataKeys E username md w))
       = Lookup username :: rest
       ∧ ∀ usr, user_Lookup E w username = ok usr →
           ∃ rest', rest = AkdOpen usr true :: rest'
             ∧ (akd_Open E (log (Lookup username) w) usr true = None →
                ∃ rest'',
                  rest' = AkdAdd usr "coreos-metadata" "" true true :: rest'')).
Proof.
  unfold writeMetadataKeys. split; [split|].
  - case_decide as Hgate; [done|]. run. unfold quiet.
    intros [Hret Hcalls]. exfalso.
    destruct (user_Lookup E w username) as [usr|err]; [|done].
    destruct (akd_Open E _ usr true); simpl in *.
    + done.
    + destruct (akd_Add E _ usr _ _ _ _); simpl in *;
        revert Hcalls; calls; intros Hcalls;
        repeat (apply Forall_cons in Hcalls as [? Hcalls]); done.
  - intros Hgate. rewrite decide_True by done. simpl.
    rewrite calls_since_refl. split; [done|constructor].
  - intros Hname Hkeys Hempty. rewrite decide_False by tauto. run.
    destruct (user_Lookup E w username) as [usr|err]; simpl.
    + destruct (akd_Open E _ usr true) eqn:Hopen; simpl.
      * calls. eexists. split; [done|]. intros ? [= <-].
        eexists. split; [done|]. by rewrite Hopen.
      * rewrite Hempty. simpl.
        destruct (akd_Add E _ usr _ _ _ _); simpl; calls;
          (eexists; split; [done|]); intros ? [= <-];
          (eexists; split; [done|]); intros _; by eexists.
    + calls. eexists. split; [done|]. done.
Qed.

Lemma writeMetadataKeys_gate_core :
  (fst (writeMetadataKeys forward "" sample_metadata sample_world) = Return None
   ∧ quiet (calls_since sample_world
              (snd (writeMetadataKeys forward "" sample_metadata sample_world))))
  ∧ ∃ rest,
      calls_since sample_world
        (snd (writeMetadataKeys forward "core" sample_metadata sample_world))
      = Lookup "core" :: rest
      ∧ ∀ usr, user_Lookup forward sample_world "core" = ok usr →
          ∃ rest', rest = AkdOpen usr true :: rest'
            ∧ (akd_Open forward (log (Lookup "core") sample_world) usr true = None →
               ∃ rest'',
                 rest' = AkdAdd usr "coreos-metadata" "" true true :: rest'').
Proof.
  split.
  - apply (proj1 (writeMetadataKeys_gate forward "" sample_metadata sample_world)).
    by left.
  - apply (proj2 (writeMetadataKeys_gate forward "core" sample_metadata
                    sample_world)); [discriminate|discriminate|reflexivity].
Defined.

(** ** The frame of the two writers *)

Create HintDb frame.

Lemma keeps_heap_ret {A} (a : A) : keeps_heap (mret a).
Proof. by intros w. Qed.

Lemma keeps_heap_exit {A} code : keeps_heap (@os_Exit A code).
Proof. by intros w. Qed.

Lemma keeps_heap_bind {A B} (m : M A) (k : A → M B) :
  keeps_heap m → (∀ a, keeps_heap (k a)) → keeps_heap (m ≫= k).
Proof.
  intros Hm Hk w. unfold mbind, M_bind. specialize (Hm w).
  destruct (m w) as [[a|code|msg] w']; simpl in *; [|done..].
  by rewrite Hk.
Qed.

Lemma keeps_heap_defer {A B} (d : M B) (body : M A) :
  keeps_heap d → keeps_heap body → keeps_heap (defer d body).
Proof.
  intros Hd Hbody w. unfold defer. specialize (Hbody w).
  destruct (body w) as [[a|code|msg] w']; simpl in *; [|done|];
    specialize (Hd w'); destruct (d w') as [[b|code'|msg'] w'']; simpl in *;
    congruence.
Qed.

Lemma keeps_heap_log {A} (f : World → A) e :
  keeps_heap (λ w, (Return (f w), log e w)).
Proof. by intros w. Qed.

Lemma keeps_heap_Create E name : keeps_heap (Create_ E name).
Proof. intros w. unfold Create_. by destruct (os_Create E w name). Qed.

Lemma keeps_heap_Write E name data : keeps_heap (Write_ E name data).
Proof. intros w. unfold Write_. by destruct (file_Write E w name data). Qed.

Lemma keeps_heap_range_map E m : keeps_heap (range_map E m).
Proof. by intros w. Qed.

Lemma keeps_heap_read_slice s : keeps_heap (read_slice s).
Proof. by intros w. Qed.

#[local] Hint Resolve keeps_heap_ret keeps_heap_exit keeps_heap_Create
  keeps_heap_Write keeps_heap_range_map keeps_heap_read_slice : frame.
#[local] Hint Extern 1 (keeps_heap (Fprintf_Stderr _)) =>
  apply keeps_heap_log : frame.
#[local] Hint Extern 1 (keeps_heap (MkdirAll_ _ _ _)) =>
  apply keeps_heap_log : frame.
#[local] Hint Extern 1 (keeps_heap (Close_ _ _)) => apply keeps_heap_log : frame.
#[local] Hint Extern 1 (keeps_heap (Lookup_ _ _)) => apply keeps_heap_log : frame.
#[local] Hint Extern 1 (keeps_heap (AkdOpen_ _ _ _)) =>
  apply keeps_heap_log : frame.
#[local] Hint Extern 1 (keeps_heap (AkdAdd_ _ _ _ _ _ _)) =>
  apply keeps_heap_log : frame.
#[local] Hint Extern 1 (keeps_heap (AkdSync_ _ _)) => apply keeps_heap_log : frame.
#[local] Hint Extern 1 (keeps_heap (AkdClose_ _ _)) =>
  apply keeps_heap_log : frame.

Ltac frame :=
  repeat first
    [ progress auto with frame
    | apply keeps_heap_bind; [|intros ?]
    | apply keeps_heap_defer
    | case_decide
    | match goal with
      | |- keeps_heap (match ?x with _ => _ end) => destruct x
      end ].

Lemma keeps_heap_writeVariable E out key value :
  keeps_heap (writeVariable E out key value).
Proof. unfold writeVariable. frame. Qed.

Lemma keeps_heap_writeMetadataAttributes_range E out entries :
  keeps_heap (writeMetadataAttributes_range E out entries).
Proof.
  induction entries as [|[key value] entries IH]; simpl; [frame|].
  apply keeps_heap_bind; [apply keeps_heap_writeVariable|].
  intros [e|]; [frame|done].
Qed.

Lemma keeps_heap_writeMetadataAttributes E attributes md :
  keeps_heap (writeMetadataAttributes E attributes md).
Proof.
  pose proof (keeps_heap_writeMetadataAttributes_range E).
  unfold writeMetadataAttributes. frame.
Qed.

Lemma keeps_heap_writeMetadataKeys E username md :
  keeps_heap (writeMetadataKeys E username md).
Proof. unfold writeMetadataKeys. frame. Qed.

(** C7: with the empty path the attribute writer returns nil at once; the
    world it leaves is the world it found: no call was made, no directory
    and no file was created or written. *)
Theorem writeMetadataAttributes_unset_path E md w :
  fst (writeMetadataAttributes E "" md w) = Return None
  ∧ calls_since w (snd (writeMetadataAttributes E "" md w)) = []
  ∧ files (snd (writeMetadataAttributes E "" md w)) = files w
  ∧ snd (writeMetadataAttributes E "" md w) = w.
Proof.
  unfold writeMetadataAttributes. rewrite decide_True by done. simpl.
  by rewrite calls_since_refl.
Qed.

(** C9: neither writer changes the heap, whatever the outcome, so the
    attribute map and the key list of the metadata read the same before and
    after either call. *)
Theorem writers_keep_metadata E attributes username md w :
  (heap (snd (writeMetadataAttributes E attributes md w)) = heap w
   ∧ heap (snd (writeMetadataKeys E username md w)) = heap w)
  ∧ (map_content (heap (snd (writeMetadataAttributes E attributes md w)))
       (Attributes md) = map_content (heap w) (Attributes md)
     ∧ slice_content (heap (snd (writeMetadataAttributes E attributes md w)))
         (SshKeys md) = slice_content (heap w) (SshKeys md))
  ∧ (map_content (heap (snd (writeMetadataKeys E username md w)))
       (Attributes md) = map_content (heap w) (Attributes md)
     ∧ slice_content (heap (snd (writeMetadataKeys E username md w)))
         (SshKeys md) = slice_content (heap w) (SshKeys md)).
Proof.
  rewrite (keeps_heap_writeMetadataAttributes E attributes md w).
  by rewrite (keeps_heap_writeMetadataKeys E username md w).
Qed.

(** ** Validation of the provider *)

Lemma closed_set_cases p :
  p ∈ closed_set ↔ p = "azure" ∨ p = "ec2" ∨ p = "gce" ∨ p = "packet".
Proof.
  unfold closed_set. rewrite !elem_of_cons, elem_of_nil. tauto.
Qed.

Lemma from_cmdline_test f :
  flags.cmdline f && bool_decide (flags.provider f = "") = true ↔ from_cmdline f.
Proof.
  unfold from_cmdline. rewrite andb_true_iff, bool_decide_eq_true. tauto.
Qed.

(** C5: a run without [--version] whose provider identifier is outside the
    closed set exits with status 2; all it has done by then is read the
    boot parameters, when the identifier came from there, and print the
    complaint: no fetch, no file written, no key installed. *)
Theorem main_invalid_provider E f w p :
  flags.version f = false →
  resolved E f w p →
  p ∉ closed_set →
  fst (main E f w) = Exit 2
  ∧ files (snd (main E f w)) = files w
  ∧ heap (snd (main E f w)) = heap w
  ∧ ∃ pre,
      (pre = [] ∨ pre = [ReadFile cmdlinePath])
      ∧ calls_since w (snd (main E f w))
        = pre ++ [Stderr ("invalid provider " +:+ strconv_Quote E p +:+ LF)].
Proof.
  intros Hversion Hresolved Hp. rewrite closed_set_cases in Hp.
  unfold main. rewrite Hversion.
  destruct Hresolved as [[Hflag ->]|(Hcmd & args & Hread & Hparse)].
  - rewrite <- from_cmdline_test in Hflag. apply not_true_is_false in Hflag.
    rewrite Hflag. run. rewrite decide_False by done. simpl.
    repeat split; try done. exists []. split; [by left|]. by calls.
  - rewrite <- from_cmdline_test in Hcmd. rewrite Hcmd. run.
    rewrite Hread, Hparse. simpl. rewrite decide_False by done. simpl.
    repeat split; try done. exists [ReadFile cmdlinePath].
    split; [by right|]. by calls.
Qed.

Lemma main_invalid_provider_foo :
  fst (main forward flags_foo sample_world) = Exit 2
  ∧ files (snd (main forward flags_foo sample_world)) = files sample_world
  ∧ heap (snd (main forward flags_foo sample_world)) = heap sample_world
  ∧ ∃ pre,
      (pre = [] ∨ pre = [ReadFile cmdlinePath])
      ∧ calls_since sample_world (snd (main forward flags_foo sample_world))
        = pre ++ [Stderr ("invalid provider " +:+ strconv_Quote forward "foo"
                          +:+ LF)].
Proof.
  apply (main_invalid_provider forward flags_foo sample_world "foo").
  - reflexivity.
  - left. split; [|reflexivity]. intros [Hcmd _]. discriminate Hcmd.
  - intros Hin. apply closed_set_cases in Hin.
    destruct Hin as [H | [H | [H | H]]]; discriminate H.
Defined.

(** ** What the writers call and how they end *)

Lemma calls_since_app w w' evs :
  trace w' = trace w ++ evs → calls_since w w' = evs.
Proof. unfold calls_since. intros ->. by rewrite drop_app_length. Qed.

Lemma writeVariable_calls E out key value w :
  ∃ evs err,
    writeVariable E out key value w
    = (Return err, snd (writeVariable E out key value w))
    ∧ trace (snd (writeVariable E out key value w)) = trace w ++ evs
    ∧ quiet evs.
Proof.
  unfold writeVariable. case_decide; run.
  - destruct (file_Write E w out _); simpl;
      eexists [_], _; (split; [done|]); split; try done;
      by repeat constructor.
  - exists [], None. rewrite app_nil_r. by repeat constructor.
Qed.

Lemma writeMetadataAttributes_range_calls E out entries : ∀ w,
  ∃ evs err,
    writeMetadataAttributes_range E out entries w
    = (Return err, snd (writeMetadataAttributes_range E out entries w))
    ∧ trace (snd (writeMetadataAttributes_range E out entries w))
      = trace w ++ evs
    ∧ quiet evs.
Proof.
  induction entries as [|[key value] entries IH]; intros w; simpl.
  - exists [], None. rewrite app_nil_r. by repeat constructor.
  - unfold mbind, M_bind.
    destruct (writeVariable_calls E out key value w)
      as (evs1 & err1 & Hrun1 & Htrace1 & Hquiet1).
    rewrite Hrun1. destruct err1 as [e|]; cbn [fst snd mret M_ret].
    + exists evs1, (Some e). by rewrite Htrace1.
    + destruct (IH (snd (writeVariable E out key value w)))
        as (evs2 & err2 & Hrun2 & Htrace2 & Hquiet2).
      exists (evs1 ++ evs2), err2. split; [done|].
      rewrite Htrace2, Htrace1, <- app_assoc. split; [done|].
      by apply Forall_app.
Qed.

Lemma writeMetadataAttributes_calls E attributes md w :
  ∃ evs,
    trace (snd (writeMetadataAttributes E attributes md w)) = trace w ++ evs
    ∧ quiet evs
    ∧ (fst (writeMetadataAttributes E attributes md w) = Exit 1
       ∨ ∃ err, fst (writeMetadataAttributes E attributes md w) = Return err).
Proof.
  unfold writeMetadataAttributes. case_decide.
  { exists []. rewrite app_nil_r. simpl. repeat split; [constructor|eauto]. }
  run. destruct (os_MkdirAll E w _ _); simpl.
  { eexists [_; _]. rewrite <- app_assoc. repeat split; [|by left].
    by repeat constructor. }
  destruct (os_Create E _ attributes); simpl.
  { eexists [_; _; _]. rewrite <- !app_assoc. repeat split; [|by left].
    by repeat constructor. }
  match goal with
  | |- context [writeMetadataAttributes_range E ?out ?entries ?w0] =>
    destruct (writeMetadataAttributes_range_calls E out entries w0)
      as (evs & err & Hrun & Htrace & Hquiet);
    rewrite Hrun; simpl; rewrite Htrace; simpl
  end.
  eexists (_ :: _ :: evs ++ [_]). rewrite <- !app_assoc. simpl.
  repeat split; [|eauto].
  repeat constructor. apply Forall_app. split; [done|by repeat constructor].
Qed.

Lemma writeMetadataKeys_returns E username md w :
  ∃ err, fst (writeMetadataKeys E username md w) = Return err.
Proof.
  unfold writeMetadataKeys. case_decide; [by eexists|]. run.
  destruct (user_Lookup E w username) as [usr|err]; simpl; [|by eexists].
  destruct (akd_Open E _ usr true); simpl; [by eexists|].
  destruct (akd_Add E _ usr _ _ _ _); simpl; by eexists.
Qed.

(** ** Dispatch *)

Lemma fetchMetadata_closed_set E p :
  p ∈ closed_set → ∃ pkg, fetchMetadata E p = FetchMetadata_ E pkg.
Proof.
  rewrite closed_set_cases. unfold fetchMetadata.
  intros [-> | [-> | [-> | ->]]]; by eexists.
Qed.

Lemma FetchMetadata_returns E pkg w :
  ∃ r, fst (FetchMetadata_ E pkg w) = Return r.
Proof.
  unfold FetchMetadata_. destruct (provider_FetchMetadata E w pkg) as [f|err].
  - destruct (place f (heap w)). by eexists.
  - by eexists.
Qed.

(** ** The attribute file *)

Lemma append_cons c a b : String c a +:+ b = String c (a +:+ b).
Proof. reflexivity. Qed.

Lemma append_assoc a b c : (a +:+ b) +:+ c = a +:+ (b +:+ c).
Proof.
  induction a as [|x a IH]; [done|]. by rewrite !append_cons, IH.
Qed.

Lemma append_nil_r a : a +:+ "" = a.
Proof. induction a as [|x a IH]; [done|]. by rewrite append_cons, IH. Qed.

Lemma length_positive (value : string) :
  (0 < String.length value)%nat ↔ value ≠ "".
Proof. destruct value; simpl; split; (done || lia). Qed.

Lemma writeMetadataAttributes_range_ok E out entries :
  (∀ w data, file_Write E w out data = None) →
  ∀ w content,
    files w !! out = Some content →
    fst (writeMetadataAttributes_range E out entries w) = Return None
    ∧ files (snd (writeMetadataAttributes_range E out entries w)) !! out
      = Some (content +:+ text (line <$> filter populated entries))
    ∧ heap (snd (writeMetadataAttributes_range E out entries w)) = heap w.
Proof.
  intros Hwrite. induction entries as [|[key value] entries IH];
    intros w content Hcontent; simpl.
  - split; [done|]. split; [|done].
    by rewrite Hcontent, append_nil_r.
  - unfold mbind, M_bind, writeVariable. case_decide as Hlen.
    + unfold Write_. rewrite Hwrite. cbn [fst snd].
      rewrite filter_cons_True by exact (proj1 (length_positive value) Hlen).
      rewrite fmap_cons, Hcontent. cbn [default from_option id].
      match goal with
      | |- context [writeMetadataAttributes_range E out entries ?w0] =>
        destruct (IH w0 (content +:+ line (key, value)))
          as (Hret & Hfiles & Hheap); [apply lookup_insert_eq|]
      end.
      rewrite Hret, Hfiles, Hheap. split; [done|]. split; [|done].
      f_equal. cbn [text foldr]. apply append_assoc.
    + cbn [mret M_ret fst snd].
      rewrite filter_cons_False
        by (intros Hne; exact (Hlen (proj2 (length_positive value) Hne))).
      by apply IH.
Qed.

(** The attribute writer on a file system without failures: it returns
    nil and the file holds the lines of the populated attributes, in the
    order in which [range] visited them. *)
Lemma writeMetadataAttributes_ok E attributes md w :
  attributes ≠ "" →
  fs_ok E attributes →
  fst (writeMetadataAttributes E attributes md w) = Return None
  ∧ ∃ w0,
      files (snd (writeMetadataAttributes E attributes md w)) !! attributes
      = Some (text (line <$> filter populated
                      (range_order E w0 (map_content (heap w) (Attributes md))))).
Proof.
  intros Hpath (Hmkdir & Hcreate & Hwrite).
  unfold writeMetadataAttributes. rewrite decide_False by done.
  run. rewrite Hmkdir. simpl. rewrite Hcreate. simpl.
  match goal with
  | |- context [writeMetadataAttributes_range E attributes ?entries ?w0] =>
    destruct (writeMetadataAttributes_range_ok E attributes entries Hwrite w0 "")
      as (Hret & Hfiles & Hheap); [apply lookup_insert_eq|];
    destruct (writeMetadataAttributes_range E attributes entries w0)
      as [o w1] eqn:Hrun
  end.
  simpl in *. subst o. simpl. split; [done|]. eexists. apply Hfiles.
Qed.

Lemma range_order_populated E w0 (m : gmap string string) :
  range_complete E →
  filter populated (range_order E w0 m) ≡ₚ filter populated (map_to_list m).
Proof. intros Hrange. by rewrite (Hrange w0 m). Qed.

Lemma populated_sample_attributes :
  filter populated (map_to_list sample_attributes) = [("C", "y"); ("A", "x")].
Proof. reflexivity. Qed.

(** C4: when the path is set and the file system does not fail, the
    attribute writer returns nil and the file consists of the lines
    [COREOS_<key>=<value>] of the entries with a non-empty value, one line
    per entry, in some order, and of nothing else; for the attributes
    [A = x], [B] empty, [C = y] these are the two lines for [A] and [C]. *)
Theorem writeMetadataAttributes_lines E attributes md w :
  attributes ≠ "" →
  fs_ok E attributes →
  range_complete E →
  fst (writeMetadataAttributes E attributes md w) = Return None
  ∧ (∃ entries,
       entries ≡ₚ filter populated
                    (map_to_list (map_content (heap w) (Attributes md)))
       ∧ files (snd (writeMetadataAttributes E attributes md w)) !! attributes
         = Some (text (line <$> entries)))
  ∧ (map_content (heap w) (Attributes md) = sample_attributes →
     files (snd (writeMetadataAttributes E attributes md w)) !! attributes
     = Some (text ["COREOS_A=x" +:+ LF; "COREOS_C=y" +:+ LF])
     ∨ files (snd (writeMetadataAttributes E attributes md w)) !! attributes
       = Some (text ["COREOS_C=y" +:+ LF; "COREOS_A=x" +:+ LF])).
Proof.
  intros Hpath Hfs Hrange.
  destruct (writeMetadataAttributes_ok E attributes md w Hpath Hfs)
    as (Hret & w0 & Hfiles).
  split; [done|]. split.
  - eexists. split; [|exact Hfiles]. by apply range_order_populated.
  - intros Hsample. rewrite Hfiles, Hsample.
    pose proof (range_order_populated E w0 sample_attributes Hrange) as Hperm.
    rewrite populated_sample_attributes in Hperm.
    symmetry in Hperm. apply Permutation_length_2_inv in Hperm.
    destruct Hperm as [-> | ->]; [by right|by left].
Qed.

Lemma fs_ok_machine order answer attributes :
  fs_ok (machine order answer) attributes.
Proof. by repeat split. Qed.

Lemma writeMetadataAttributes_lines_sample :
  fst (writeMetadataAttributes forward "/run/metadata/coreos" sample_metadata
         sample_world) = Return None
  ∧ (files (snd (writeMetadataAttributes forward "/run/metadata/coreos"
                   sample_metadata sample_world)) !! "/run/metadata/coreos"
     = Some (text ["COREOS_A=x" +:+ LF; "COREOS_C=y" +:+ LF])
     ∨ files (snd (writeMetadataAttributes forward "/run/metadata/coreos"
                     sample_metadata sample_world)) !! "/run/metadata/coreos"
       = Some (text ["COREOS_C=y" +:+ LF; "COREOS_A=x" +:+ LF])).
Proof.
  destruct (writeMetadataAttributes_lines forward "/run/metadata/coreos"
              sample_metadata sample_world) as (Hret & _ & Hfile).
  - discriminate.
  - apply fs_ok_machine.
  - intros w m. reflexivity.
  - split; [exact Hret|]. apply Hfile. reflexivity.
Defined.

(** A map gives every key once, also among the populated entries. *)
Lemma NoDup_fmap_fst_filter_populated (m : gmap string string) :
  NoDup (fst <$> filter populated (map_to_list m)).
Proof.
  pose proof (NoDup_fst_map_to_list m) as Hall.
  induction (map_to_list m) as [|kv l IH]; [constructor|].
  rewrite fmap_cons in Hall. apply NoDup_cons in Hall as [Hkv Hl].
  destruct (decide (populated kv)) as [Hpop|Hpop].
  - rewrite filter_cons_True, fmap_cons by done. apply NoDup_cons.
    split; [|by apply IH]. intros Hin. apply Hkv.
    apply list_elem_of_fmap in Hin as (kv' & -> & Hin').
    apply list_elem_of_fmap. exists kv'. split; [done|].
    by apply list_elem_of_filter in Hin' as [_ ?].
  - rewrite filter_cons_False by done. by apply IH.
Qed.

(** The attribute writer on a file system without failures, with the
    world in which it ranges over the attributes made explicit. *)
Lemma writeMetadataAttributes_ok_at E attributes md w :
  attributes ≠ "" →
  fs_ok E attributes →
  files (snd (writeMetadataAttributes E attributes md w)) !! attributes
  = Some (text (line <$> filter populated
                  (range_order E (created E attributes w)
                     (map_content (heap w) (Attributes md))))).
Proof.
  intros Hpath (Hmkdir & Hcreate & Hwrite).
  unfold writeMetadataAttributes. rewrite decide_False by done.
  run. rewrite Hmkdir. simpl. rewrite Hcreate. simpl.
  match goal with
  | |- context [writeMetadataAttributes_range E attributes ?entries ?w0] =>
    destruct (writeMetadataAttributes_range_ok E attributes entries Hwrite w0 "")
      as (Hret & Hfiles & Hheap); [apply lookup_insert_eq|];
    destruct (writeMetadataAttributes_range E attributes entries w0)
      as [o w1] eqn:Hrun
  end.
  simpl in *. subst o. simpl. exact Hfiles.
Qed.

(** C6, as amended: two runs of the attribute writer over the same
    attribute map write the same lines, those of the attributes with a
    non-empty value, each once, but the order of the lines is the order in
    which [range] visits the map in each run; only when both runs visit the
    map in the same order are the two files equal. *)
Theorem writeMetadataAttributes_same_lines E1 E2 attributes md w1 w2 :
  attributes ≠ "" →
  fs_ok E1 attributes → fs_ok E2 attributes →
  range_complete E1 → range_complete E2 →
  map_content (heap w1) (Attributes md) = map_content (heap w2) (Attributes md) →
  files (snd (writeMetadataAttributes E1 attributes md w1)) !! attributes
  = Some (text (line <$> filter populated
                  (range_order E1 (created E1 attributes w1)
                     (map_content (heap w1) (Attributes md)))))
  ∧ files (snd (writeMetadataAttributes E2 attributes md w2)) !! attributes
    = Some (text (line <$> filter populated
                    (range_order E2 (created E2 attributes w2)
                       (map_content (heap w1) (Attributes md)))))
  ∧ filter populated
      (range_order E1 (created E1 attributes w1)
         (map_content (heap w1) (Attributes md)))
    ≡ₚ filter populated (map_to_list (map_content (heap w1) (Attributes md)))
  ∧ filter populated
      (range_order E2 (created E2 attributes w2)
         (map_content (heap w1) (Attributes md)))
    ≡ₚ filter populated (map_to_list (map_content (heap w1) (Attributes md)))
  ∧ NoDup (fst <$> filter populated
                     (map_to_list (map_content (heap w1) (Attributes md))))
  ∧ (range_order E1 (created E1 attributes w1)
       (map_content (heap w1) (Attributes md))
     = range_order E2 (created E2 attributes w2)
         (map_content (heap w1) (Attributes md)) →
     files (snd (writeMetadataAttributes E1 attributes md w1)) !! attributes
     = files (snd (writeMetadataAttributes E2 attributes md w2)) !! attributes).
Proof.
  intros Hpath Hfs1 Hfs2 Hrange1 Hrange2 Hmap.
  rewrite (writeMetadataAttributes_ok_at E1 attributes md w1 Hpath Hfs1).
  rewrite (writeMetadataAttributes_ok_at E2 attributes md w2 Hpath Hfs2).
  rewrite <- Hmap. split; [done|]. split; [done|].
  split; [by apply range_order_populated|].
  split; [by apply range_order_populated|]. split.
  - apply (NoDup_fmap_fst_filter_populated
             (map_content (heap w1) (Attributes md))).
  - by intros ->.
Qed.

Lemma writeMetadataAttributes_same_lines_sample :
  files (snd (writeMetadataAttributes forward "/run/metadata/coreos"
                sample_metadata sample_world)) !! "/run/metadata/coreos"
  = Some (text (line <$> filter populated
                  (range_order forward
                     (created forward "/run/metadata/coreos" sample_world)
                     (map_content (heap sample_world)
                        (Attributes sample_metadata)))))
  ∧ files (snd (writeMetadataAttributes backward "/run/metadata/coreos"
                  sample_metadata sample_world)) !! "/run/metadata/coreos"
    = Some (text (line <$> filter populated
                    (range_order backward
                       (created backward "/run/metadata/coreos" sample_world)
                       (map_content (heap sample_world)
                          (Attributes sample_metadata)))))
  ∧ filter populated
      (range_order forward
         (created forward "/run/metadata/coreos" sample_world)
         (map_content (heap sample_world) (Attributes sample_metadata)))
    ≡ₚ filter populated
         (map_to_list
            (map_content (heap sample_world) (Attributes sample_metadata)))
  ∧ filter populated
      (range_order backward
         (created backward "/run/metadata/coreos" sample_world)
         (map_content (heap sample_world) (Attributes sample_metadata)))
    ≡ₚ filter populated
         (map_to_list
            (map_content (heap sample_world) (Attributes sample_metadata))).
Proof.
  destruct (writeMetadataAttributes_same_lines forward backward
              "/run/metadata/coreos" sample_metadata sample_world sample_world)
    as (Hfile1 & Hfile2 & Hperm1 & Hperm2 & _).
  - discriminate.
  - apply fs_ok_machine.
  - apply fs_ok_machine.
  - intros w m. reflexivity.
  - intros w m. apply reverse_Permutation.
  - reflexivity.
  - exact (conj Hfile1 (conj Hfile2 (conj Hperm1 Hperm2))).
Defined.

(** C6, as stated, fails: on two machines that differ only in the order in
    which [range] visits the map, the files written for the same metadata
    differ. *)
Lemma writeMetadataAttributes_order_shows :
  range_complete forward ∧ range_complete backward
  ∧ files (snd (writeMetadataAttributes forward "/run/metadata/coreos"
                  sample_metadata sample_world)) !! "/run/metadata/coreos"
    = Some ("COREOS_C=y" +:+ LF +:+ "COREOS_A=x" +:+ LF)
  ∧ files (snd (writeMetadataAttributes backward "/run/metadata/coreos"
                  sample_metadata sample_world)) !! "/run/metadata/coreos"
    = Some ("COREOS_A=x" +:+ LF +:+ "COREOS_C=y" +:+ LF)
  ∧ files (snd (writeMetadataAttributes forward "/run/metadata/coreos"
                  sample_metadata sample_world)) !! "/run/metadata/coreos"
    ≠ files (snd (writeMetadataAttributes backward "/run/metadata/coreos"
                    sample_metadata sample_world)) !! "/run/metadata/coreos".
Proof.
  split; [by intros w m|]. split; [intros w m; apply reverse_Permutation|].
  split; [reflexivity|]. split; [reflexivity|]. discriminate.
Qed.

(** ** The whole run *)

Lemma place_keys f h :
  SshKeys (fst (place f h)) = None ↔ fetched_keys f = None.
Proof.
  unfold place, alloc_map, alloc_array.
  destruct (fetched_attributes f), (fetched_keys f); simpl; split; done.
Qed.

Lemma writeMetadataAttributes_returns_nil E attributes md w :
  attributes = "" ∨ fs_ok E attributes →
  fst (writeMetadataAttributes E attributes md w) = Return None.
Proof.
  destruct (decide (attributes = "")) as [->|Hpath]; [done|].
  intros [?|Hfs]; [done|]. by apply writeMetadataAttributes_ok.
Qed.

Lemma writeMetadataKeys_lookup_fails E username md w err :
  username ≠ "" → SshKeys md ≠ None →
  user_Lookup E w username = fail err →
  writeMetadataKeys E username md w
  = (Return (Some ("unable to lookup user " +:+ strconv_Quote E username
                   +:+ ": " +:+ err)),
     log (Lookup username) w).
Proof.
  intros Hname Hkeys Hlookup. unfold writeMetadataKeys.
  rewrite decide_False by tauto. run. by rewrite Hlookup.
Qed.

(** The start of [main] up to the validation of the provider: the world in
    which the validated identifier is fetched. *)
Lemma resolved_trace E f w p :
  resolved E f w p →
  ∃ pre, (pre = [] ∨ pre = [ReadFile cmdlinePath]) ∧
    ∀ (k : string → M unit),
      ((if flags.cmdline f && bool_decide (flags.provider f = "") then
          r ← ReadFile_ E cmdlinePath;
          match r with
          | fail err =>
            Fprintf_Stderr ("could not read cmdline: " +:+ err +:+ LF);;
            os_Exit 2
          | ok args =>
            match parseCmdline args with
            | Some oem => mret oem
            | None => panic "index out of range"
            end
          end
        else mret (flags.provider f)) ≫= k) w
      = k p {| trace := trace w ++ pre; files := files w; heap := heap w |}.
Proof.
  intros [[Hflag ->]|(Hcmd & args & Hread & Hparse)].
  - rewrite <- from_cmdline_test in Hflag. apply not_true_is_false in Hflag.
    rewrite Hflag. exists []. split; [by left|]. intros k. run.
    rewrite app_nil_r. by destruct w.
  - rewrite <- from_cmdline_test in Hcmd. rewrite Hcmd.
    exists [ReadFile cmdlinePath]. split; [by right|]. intros k. run.
    by rewrite Hread, Hparse.
Qed.

Lemma main_lookup_fails E f w p err :
  flags.version f = false →
  resolved E f w p → p ∈ closed_set →
  (∀ w' pkg, ∃ fetched,
     provider_FetchMetadata E w' pkg = ok fetched
     ∧ fetched_keys fetched ≠ None) →
  flags.attributes f = "" ∨ fs_ok E (flags.attributes f) →
  flags.sshKeys f ≠ "" →
  (∀ w', user_Lookup E w' (flags.sshKeys f) = fail err) →
  ∃ evs w',
    quiet evs ∧ trace w' = trace w ++ evs
    ∧ main E f w
      = (Exit 1,
         log (Stderr ("failed to write metadata keys: "
                      +:+ ("unable to lookup user "
                           +:+ strconv_Quote E (flags.sshKeys f)
                           +:+ ": " +:+ err) +:+ LF))
           (log (Lookup (flags.sshKeys f)) w')).
Proof.
  intros Hversion Hresolved Hp Hfetch Hfs Hname Hlookup.
  unfold main. rewrite Hversion.
  destruct (resolved_trace E f w p Hresolved) as (pre & Hpre & ->).
  rewrite decide_True by by apply closed_set_cases.
  destruct (fetchMetadata_closed_set E p Hp) as [pkg ->].
  unfold mbind at 1 2, M_bind at 1 2, mret at 1, M_ret at 1.
  unfold FetchMetadata_.
  match goal with
  | |- context [provider_FetchMetadata E ?w1 pkg] =>
    destruct (Hfetch w1 pkg) as (fetched & -> & Hkeys)
  end.
  cbn [heap]. rewrite <- (place_keys fetched (heap w)) in Hkeys.
  destruct (place fetched (heap w)) as [md h]. cbn [fst] in Hkeys.
  unfold mbind at 1, M_bind at 1.
  match goal with
  | |- context [writeMetadataAttributes E ?a md ?w2] =>
    destruct (writeMetadataAttributes_calls E a md w2)
      as (evs & Htrace & Hquiet & _);
    pose proof (writeMetadataAttributes_returns_nil E a md w2 Hfs) as Hnil;
    destruct (writeMetadataAttributes E a md w2) as [o w3]
  end.
  cbn [fst snd] in Hnil, Htrace. subst o.
  unfold mbind, M_bind, mret, M_ret.
  rewrite (writeMetadataKeys_lookup_fails E _ md w3 err) by done.
  exists (pre ++ FetchMetadata pkg :: evs), w3.
  split; [|split; [|done]].
  - apply Forall_app. split; [by destruct Hpre as [-> | ->]; repeat constructor|].
    by constructor.
  - rewrite Htrace. simpl. by rewrite <- !app_assoc.
Qed.

(** C8: with a user name, keys that are not nil and a user that the system
    does not know, the installer returns an error that names the user and
    carries the cause, having made no call but the lookup; [main] then
    prints it and the process exits with status 1 without a call on an
    authorized-keys store. *)
Theorem writeMetadataKeys_unknown_user E :
  (∀ username md w err,
     username ≠ "" → SshKeys md ≠ None →
     user_Lookup E w username = fail err →
     writeMetadataKeys E username md w
     = (Return (Some ("unable to lookup user " +:+ strconv_Quote E username
                      +:+ ": " +:+ err)),
        log (Lookup username) w))
  ∧ (∀ f w p err,
       flags.version f = false →
       resolved E f w p → p ∈ closed_set →
       (∀ w' pkg, ∃ fetched,
          provider_FetchMetadata E w' pkg = ok fetched
          ∧ fetched_keys fetched ≠ None) →
       flags.attributes f = "" ∨ fs_ok E (flags.attributes f) →
       flags.sshKeys f ≠ "" →
       (∀ w', user_Lookup E w' (flags.sshKeys f) = fail err) →
       fst (main E f w) = Exit 1
       ∧ ∃ evs,
           calls_since w (snd (main E f w))
           = evs ++ [Lookup (flags.sshKeys f);
                     Stderr ("failed to write metadata keys: "
                             +:+ ("unable to lookup user "
                                  +:+ strconv_Quote E (flags.sshKeys f)
                                  +:+ ": " +:+ err) +:+ LF)]
           ∧ quiet evs).
Proof.
  split; [apply writeMetadataKeys_lookup_fails|].
  intros f w p err Hversion Hresolved Hp Hfetch Hfs Hname Hlookup.
  destruct (main_lookup_fails E f w p err) as (evs & w' & Hquiet & Htrace & ->);
    try done.
  split; [done|]. exists evs. split; [|done].
  apply calls_since_app. simpl. by rewrite Htrace, <- !app_assoc.
Qed.

Lemma main_from_provider_no_panic E f p w :
  panics
    (fst (((if decide (p = "azure" ∨ p = "ec2" ∨ p = "gce" ∨ p = "packet")
            then mret ()
            else
              Fprintf_Stderr ("invalid provider " +:+ strconv_Quote E p +:+ LF);;
              os_Exit 2);;
           r ← fetchMetadata E p;
           match r with
           | fail err =>
             Fprintf_Stderr ("failed to fetch metadata: " +:+ err +:+ LF);;
             os_Exit 1
           | ok metadata =>
             err ← writeMetadataAttributes E (flags.attributes f) metadata;
             match err with
             | Some e =>
               Fprintf_Stderr
                 ("failed to write metadata attributes: " +:+ e +:+ LF);;
               os_Exit 1
             | None => mret ()
             end;;
             err ← writeMetadataKeys E (flags.sshKeys f) metadata;
             match err with
             | Some e =>
               Fprintf_Stderr ("failed to write metadata keys: " +:+ e +:+ LF);;
               os_Exit 1
             | None => mret ()
             end
           end) w)) = false.
Proof.
  case_decide as Hp; [|done].
  apply closed_set_cases, (fetchMetadata_closed_set E) in Hp as [pkg ->].
  unfold mbind at 1 2, M_bind at 1 2, mret at 1, M_ret at 1.
  destruct (FetchMetadata_returns E pkg w) as [r Hr].
  destruct (FetchMetadata_ E pkg w) as [o w1]. cbn [fst] in Hr. subst o.
  destruct r as [md|err]; [|done].
  unfold mbind at 1, M_bind at 1.
  destruct (writeMetadataAttributes_calls E (flags.attributes f) md w1)
    as (_ & _ & _ & Hattrs).
  destruct (writeMetadataAttributes E (flags.attributes f) md w1) as [o w2].
  cbn [fst] in Hattrs. destruct Hattrs as [-> | [[e|] ->]]; [done..|].
  unfold mbind, M_bind, mret, M_ret.
  destruct (writeMetadataKeys_returns E (flags.sshKeys f) md w2) as [err Hkeys].
  destruct (writeMetadataKeys E (flags.sshKeys f) md w2) as [o w3].
  cbn [fst] in Hkeys. subst o. by destruct err.
Qed.

(** C10: for an identifier of the closed set [fetchMetadata] calls the
    provider of that name and does not panic; [main] validates the
    identifier before the call, so no run of [main] ends in a panic, the
    panic of the default branch included. *)
Theorem fetchMetadata_no_panic E :
  (∀ p w, p ∈ closed_set →
     (∃ pkg, fetchMetadata E p w = FetchMetadata_ E pkg w)
     ∧ panics (fst (fetchMetadata E p w)) = false)
  ∧ (∀ f, no_panic (main E f)).
Proof.
  split.
  - intros p w Hp. destruct (fetchMetadata_closed_set E p Hp) as [pkg ->].
    split; [by exists pkg|].
    by destruct (FetchMetadata_returns E pkg w) as [r ->].
  - intros f w. unfold main. destruct (flags.version f); [done|].
    destruct (flags.cmdline f && bool_decide (flags.provider f = "")).
    + unfold mbind at 1, M_bind at 1.
      match goal with
      | |- context [let (_, _) := ?m w in _] =>
        assert (panics (fst (m w)) = false) as Hm;
          [|destruct (m w) as [[oem|code|msg] w1]; [|done..]]
      end.
      * run. destruct (ioutil_ReadFile E w cmdlinePath) as [args|err]; [|done].
        destruct (parseCmdline_range_total (strings.Split args " ") "")
          as [oem Hoem].
        unfold parseCmdline. by rewrite Hoem.
      * apply main_from_provider_no_panic.
    + apply main_from_provider_no_panic.
Qed.

Lemma fetchMetadata_no_panic_gce :
  (∃ pkg, fetchMetadata forward "gce" sample_world
          = FetchMetadata_ forward pkg sample_world)
  ∧ panics (fst (fetchMetadata forward "gce" sample_world)) = false.
Proof.
  apply (proj1 (fetchMetadata_no_panic forward) "gce" sample_world).
  unfold closed_set. do 2 right. left.
Defined.

Lemma writeMetadataKeys_unknown_user_nobody :
  writeMetadataKeys forward "nobody" sample_metadata sample_world
  = (Return (Some ("unable to lookup user " +:+ quote_plain "nobody"
                   +:+ ": " +:+ "user: unknown user nobody")),
     log (Lookup "nobody") sample_world)
  ∧ fst (main forward flags_nobody sample_world) = Exit 1
  ∧ ∃ evs,
      calls_since sample_world (snd (main forward flags_nobody sample_world))
      = evs ++ [Lookup "nobody";
                Stderr ("failed to write metadata keys: "
                        +:+ ("unable to lookup user " +:+ quote_plain "nobody"
                             +:+ ": " +:+ "user: unknown user nobody") +:+ LF)]
      ∧ quiet evs.
Proof.
  split.
  - apply (proj1 (writeMetadataKeys_unknown_user forward)
             "nobody" sample_metadata sample_world "user: unknown user nobody");
      [discriminate|discriminate|reflexivity].
  - apply (proj2 (writeMetadataKeys_unknown_user forward)
             flags_nobody sample_world "ec2" "user: unknown user nobody").
    + reflexivity.
    + right. split; [by split|]. eexists. split; reflexivity.
    + unfold closed_set. right. left.
    + intros w' pkg. exists sample_fetched. split; [reflexivity|discriminate].
    + right. apply fs_ok_machine.
    + discriminate.
    + intros w'. reflexivity.
Defined.

(** * More about the code *)

(** ** [strings.Split] on one byte *)

Lemma genSplit_cons_other c t sep k :
  c ≠ sep →
  strings.genSplit (String c t) sep k
  = match strings.genSplit t sep k with
    | h :: r => String c h :: r
    | [] => []
    end.
Proof.
  intros Hc. destruct k as [|k]; simpl; [done|].
  rewrite decide_False by done.
  by destruct (strings.cut t sep) as [[a b]|].
Qed.

Lemma Split_cons_sep t sep :
  strings.Split (String sep t) sep = "" :: strings.Split t sep.
Proof.
  unfold strings.Split, strings.SplitN. simpl.
  rewrite decide_True by done. simpl. by rewrite decide_True.
Qed.

Lemma Split_cons_other c t sep :
  c ≠ sep →
  strings.Split (String c t) sep
  = match strings.Split t sep with
    | h :: r => String c h :: r
    | [] => []
    end.
Proof.
  intros Hc. unfold strings.Split, strings.SplitN. simpl.
  rewrite decide_False by done. by apply genSplit_cons_other.
Qed.

Lemma Split_nonempty s sep : strings.Split s sep ≠ [].
Proof.
  induction s as [|c s IH]; [done|].
  destruct (decide (c = sep)) as [->|Hc].
  - by rewrite Split_cons_sep.
  - rewrite Split_cons_other by done. by destruct (strings.Split s sep).
Qed.

Lemma Split_append a b sep :
  strings.Split (a +:+ String sep b) sep
  = strings.Split a sep ++ strings.Split b sep.
Proof.
  induction a as [|c a IH].
  - change ("" +:+ String sep b) with (String sep b). by rewrite Split_cons_sep.
  - rewrite append_cons. destruct (decide (c = sep)) as [->|Hc].
    + by rewrite !Split_cons_sep, IH.
    + rewrite !Split_cons_other, IH by done.
      pose proof (Split_nonempty a sep). by destruct (strings.Split a sep).
Qed.

Lemma Split_free_of s sep :
  Forall (free_of sep) (strings.Split s sep).
Proof.
  induction s as [|c s IH]; [by repeat constructor|].
  destruct (decide (c = sep)) as [->|Hc].
  - rewrite Split_cons_sep. by constructor.
  - rewrite Split_cons_other by done.
    destruct (strings.Split s sep) as [|h r]; [done|].
    apply Forall_cons in IH as [Hh Hr]. constructor; [|done].
    unfold free_of in *. simpl. by rewrite decide_False.
Qed.

(** ** More about [parseCmdline] *)

Lemma parseCmdline_range_app l1 l2 oem :
  parseCmdline_range (l1 ++ l2) oem
  = parseCmdline_range l1 oem ≫= parseCmdline_range l2.
Proof.
  revert oem. induction l1 as [|arg l1 IH]; intros oem; simpl; [done|].
  destruct (parseCmdline_arg oem arg); simpl; [apply IH|done].
Qed.

(** Behind an assignment the value recorded before does not matter. *)
Lemma parseCmdline_range_assigned args oem oem' :
  (∃ v, assignment v ∈ strings.TrimSpace <$> args) →
  parseCmdline_range args oem = parseCmdline_range args oem'.
Proof.
  revert oem oem'. induction args as [|arg args IH]; intros oem oem' [v Hv].
  - by apply elem_of_nil in Hv.
  - simpl.
    destruct (parseCmdline_arg_cases oem arg) as [(u & Hu & ->)|[Hno ->]].
    + by rewrite (parseCmdline_arg_assignment oem' arg u).
    + rewrite (parseCmdline_arg_other oem' arg) by done. simpl.
      apply IH. exists v. rewrite fmap_cons in Hv.
      apply elem_of_cons in Hv as [Hv|Hv]; [|done]. by destruct (Hno v).
Qed.

Lemma parseCmdline_range_from args : ∀ oem v,
  parseCmdline_range args oem = Some v →
  v = oem ∨ assignment v ∈ strings.TrimSpace <$> args.
Proof.
  induction args as [|arg args IH]; intros oem v; simpl.
  - intros [= ->]. by left.
  - destruct (parseCmdline_arg_cases oem arg) as [(u & Hu & ->)|[_ ->]]; simpl;
      intros [->|Hin]%IH.
    + right. apply elem_of_cons. by left.
    + right. apply elem_of_cons. by right.
    + by left.
    + right. apply elem_of_cons. by right.
Qed.

Lemma parseCmdline_from_tokens_helper cmdline v :
  parseCmdline cmdline = Some v →
  v = "" ∨ assignment v ∈ strings.TrimSpace <$> strings.Split cmdline " ".
Proof. apply parseCmdline_range_from. Qed.

(** X1: [parseCmdline] returns for every input: the index expressions
    [parts[0]] and [parts[1]] never run out of range, so the loop cannot
    panic. *)
Theorem parseCmdline_total cmdline : is_Some (parseCmdline cmdline).
Proof. apply parseCmdline_range_total. Qed.

(** X2: when no token of the boot parameters has the form
    [coreos.oem.id=value], whatever else they hold (the bare flag, other
    keys, keys that only start with the flag name), the result is the
    empty string. *)
Theorem parseCmdline_not_assigned cmdline :
  ¬ assigned cmdline → parseCmdline cmdline = Some "".
Proof.
  intros Hno. apply parseCmdline_range_no_assignment.
  intros t v Ht ->. apply Hno. by exists v.
Qed.

Lemma parseCmdline_not_assigned_bare :
  ¬ assigned "ro coreos.oem.id coreos.oem.identity=gce"
  ∧ parseCmdline "ro coreos.oem.id coreos.oem.identity=gce" = Some "".
Proof.
  assert (¬ assigned "ro coreos.oem.id coreos.oem.identity=gce") as Hno.
  { intros [v Hv]. vm_compute in Hv.
    repeat (apply elem_of_cons in Hv as [Hv|Hv]; [discriminate Hv|]).
    inversion Hv. }
  split; [exact Hno|]. exact (parseCmdline_not_assigned _ Hno).
Defined.

(** X3: the result is never made up: a non-empty result is the value of an
    assignment of the flag that stands among the tokens. *)
Theorem parseCmdline_from_tokens cmdline v :
  parseCmdline cmdline = Some v →
  v = "" ∨ assignment v ∈ tokens cmdline.
Proof. apply parseCmdline_from_tokens_helper. Qed.

Lemma parseCmdline_from_tokens_packet :
  "packet" = "" ∨ assignment "packet" ∈ tokens "quiet coreos.oem.id=packet".
Proof.
  apply (parseCmdline_from_tokens "quiet coreos.oem.id=packet" "packet").
  reflexivity.
Defined.

(** X4: boot parameters put together with a space: what stands behind
    overrides what stands in front when it assigns the flag, and changes
    nothing when it does not. *)
Theorem parseCmdline_append a b :
  (assigned b → parseCmdline (a +:+ " " +:+ b) = parseCmdline b)
  ∧ (¬ assigned b → parseCmdline (a +:+ " " +:+ b) = parseCmdline a).
Proof.
  unfold parseCmdline.
  change (a +:+ " " +:+ b) with (a +:+ String " " b).
  rewrite Split_append, parseCmdline_range_app.
  destruct (parseCmdline_range_total (strings.Split a " ") "") as [oem ->].
  simpl. split.
  - intros Hb. by apply parseCmdline_range_assigned.
  - intros Hb. rewrite parseCmdline_range_no_assignment; [done|].
    intros t v Ht ->. apply Hb. by exists v.
Qed.

Lemma parseCmdline_append_override :
  parseCmdline ("coreos.oem.id=ec2 ro" +:+ " " +:+ "coreos.oem.id=gce")
  = parseCmdline "coreos.oem.id=gce"
  ∧ parseCmdline ("coreos.oem.id=ec2 ro" +:+ " " +:+ "quiet splash")
    = parseCmdline "coreos.oem.id=ec2 ro".
Proof.
  split.
  - apply (proj1 (parseCmdline_append "coreos.oem.id=ec2 ro" "coreos.oem.id=gce")).
    exists "gce". vm_compute. by left.
  - apply (proj2 (parseCmdline_append "coreos.oem.id=ec2 ro" "quiet splash")).
    intros [v Hv]. vm_compute in Hv.
    repeat (apply elem_of_cons in Hv as [Hv|Hv]; [discriminate Hv|]).
    inversion Hv.
Defined.

(** ** [strings.TrimSpace] cuts, and cuts a line feed at the end *)

Lemma Count_append a b c :
  strings.Count (a +:+ b) c = (strings.Count a c + strings.Count b c)%nat.
Proof.
  induction a as [|x a IH]; [done|]. rewrite append_cons. simpl.
  case_decide; lia.
Qed.

Lemma free_of_append a b c : free_of c (a +:+ b) ↔ free_of c a ∧ free_of c b.
Proof. unfold free_of. rewrite Count_append. lia. Qed.

Lemma TrimLeftFunc_from_cons f c t skip :
  strings.TrimLeftFunc_from f (String c t) skip
  = match skip with
    | S k => strings.TrimLeftFunc_from f t k
    | O =>
      let '(r, wid) := utf8.DecodeRuneInString (String c t) in
      if f r then strings.TrimLeftFunc_from f t (wid - 1) else String c t
    end.
Proof. reflexivity. Qed.

Lemma TrimLeftFunc_from_suffix f s : ∀ skip,
  ∃ p, s = p +:+ strings.TrimLeftFunc_from f s skip.
Proof.
  induction s as [|c s IH]; intros skip; [by exists ""|].
  rewrite TrimLeftFunc_from_cons. destruct skip as [|k].
  - destruct (utf8.DecodeRuneInString (String c s)) as [r wid].
    destruct (f r); [|by exists ""].
    destruct (IH (wid - 1)%nat) as [p Hp]. exists (String c p).
    by rewrite append_cons, <- Hp.
  - destruct (IH k) as [p Hp]. exists (String c p).
    by rewrite append_cons, <- Hp.
Qed.

Lemma substring_prefix m : ∀ s, ∃ q, s = String.substring 0 m s +:+ q.
Proof.
  induction m as [|m IH]; intros s.
  - exists s. by destruct s.
  - destruct s as [|c s]; [by exists ""|].
    destruct (IH s) as [q Hq]. exists q. simpl.
    by rewrite append_cons, <- Hq.
Qed.

Lemma TrimSpace_free_of c s : free_of c s → free_of c (strings.TrimSpace s).
Proof.
  intros Hs. unfold strings.TrimSpace, strings.TrimFunc, strings.TrimRightFunc,
    strings.TrimLeftFunc.
  destruct (TrimLeftFunc_from_suffix unicode.IsSpace s 0) as [p Hp].
  rewrite Hp in Hs. apply free_of_append in Hs as [_ Hs].
  match goal with
  | |- free_of c (String.substring 0 ?m ?u) =>
    destruct (substring_prefix m u) as [q Hq]
  end.
  rewrite Hq in Hs. by apply free_of_append in Hs as [Hs _].
Qed.

(** X5: the result holds no space: a provider identifier taken from the
    boot parameters is a single word. *)
Theorem parseCmdline_free_of_space cmdline v :
  parseCmdline cmdline = Some v → free_of " " v.
Proof.
  intros [->|Hin]%parseCmdline_from_tokens_helper; [done|].
  apply list_elem_of_fmap in Hin as (arg & Harg & Hin).
  pose proof (Split_free_of cmdline " ") as Hfree.
  rewrite Forall_forall in Hfree. apply Hfree, (TrimSpace_free_of " ") in Hin.
  rewrite <- Harg in Hin. exact Hin.
Qed.

Lemma parseCmdline_free_of_space_packet :
  free_of " " "packet".
Proof.
  apply (parseCmdline_free_of_space "quiet coreos.oem.id=packet" "packet").
  reflexivity.
Defined.

Lemma first_lo s0 sz lo hi :
  utf8.first s0 = Some (sz, lo, hi) → (10 <? lo) = true.
Proof.
  unfold utf8.first. repeat case_match; by intros [= <- <- <-].
Qed.

Lemma byte_LF : utf8.byte "010" = 10.
Proof. reflexivity. Qed.

(** A line feed behind a string does not change the rune the string starts
    with. *)
Lemma DecodeRuneInString_LF c t :
  utf8.DecodeRuneInString (String c t +:+ LF)
  = utf8.DecodeRuneInString (String c t).
Proof.
  unfold utf8.DecodeRuneInString. rewrite append_cons.
  destruct (utf8.byte c <? utf8.RuneSelf); [done|].
  destruct (utf8.first (utf8.byte c)) as [[[sz lo] hi]|] eqn:Hfirst; [|done].
  apply first_lo in Hfirst.
  destruct t as [|c1 t1].
  { change ("" +:+ LF) with (String "010" ""). cbv beta iota zeta.
    by rewrite byte_LF, Hfirst. }
  rewrite append_cons.
  destruct ((utf8.byte c1 <? lo) || (hi <? utf8.byte c1)); [done|].
  destruct (sz <=? 2); [done|].
  destruct t1 as [|c2 t2]; [done|].
  rewrite append_cons.
  destruct (negb (utf8.continuation (utf8.byte c2))); [done|].
  destruct (sz <=? 3); [done|].
  destruct t2 as [|c3 t3]; [done|]. by rewrite append_cons.
Qed.

Lemma DecodeRuneInString_width s r wid :
  utf8.DecodeRuneInString s = (r, wid) → (wid ≤ String.length s)%nat.
Proof.
  unfold utf8.DecodeRuneInString.
  repeat case_match; intros [= <- <-]; simpl; lia.
Qed.

Lemma TrimLeftFunc_from_LF f t : ∀ skip,
  (skip ≤ String.length t)%nat →
  strings.TrimLeftFunc_from f (t +:+ LF) skip
  = match strings.TrimLeftFunc_from f t skip with
    | EmptyString => if f 10 then "" else LF
    | u => u +:+ LF
    end.
Proof.
  induction t as [|c t IH]; intros skip Hskip.
  - simpl in Hskip. assert (skip = 0%nat) as -> by lia. reflexivity.
  - rewrite append_cons, !TrimLeftFunc_from_cons. destruct skip as [|k].
    + rewrite <- append_cons, DecodeRuneInString_LF.
      destruct (utf8.DecodeRuneInString (String c t)) as [r wid] eqn:Hdecode.
      apply DecodeRuneInString_width in Hdecode. simpl in Hdecode.
      destruct (f r); [|done]. apply IH. lia.
    + apply IH. simpl in Hskip. lia.
Qed.

Lemma TrimRightFunc_len_S f s i skip :
  strings.TrimRightFunc_len f s (S i) skip
  = match skip with
    | S k => strings.TrimRightFunc_len f s i k
    | O =>
      let '(r, size) :=
        utf8.DecodeLastRuneInString (String.substring 0 (S i) s) in
      if f r then strings.TrimRightFunc_len f s i (size - 1) else S i
    end.
Proof. reflexivity. Qed.

Lemma substring_append_le u x : ∀ i,
  (i ≤ String.length u)%nat →
  String.substring 0 i (u +:+ x) = String.substring 0 i u.
Proof.
  induction u as [|c u IH]; intros i Hi; simpl in Hi.
  - assert (i = 0%nat) as -> by lia. by destruct x.
  - destruct i as [|i]; [done|]. rewrite append_cons. simpl.
    rewrite IH; [done|lia].
Qed.

Lemma substring_all s : String.substring 0 (String.length s) s = s.
Proof. induction s as [|c s IH]; [done|]. simpl. by rewrite IH. Qed.

Lemma length_append_LF u : String.length (u +:+ LF) = S (String.length u).
Proof.
  induction u as [|c u IH]; [done|]. rewrite append_cons. simpl. by rewrite IH.
Qed.

Lemma get_append_LF u : String.get (String.length u) (u +:+ LF) = Some "010"%char.
Proof. induction u as [|c u IH]; [done|]. by rewrite append_cons. Qed.

Lemma TrimRightFunc_len_append f u x : ∀ i skip,
  (i ≤ String.length u)%nat →
  strings.TrimRightFunc_len f (u +:+ x) i skip
  = strings.TrimRightFunc_len f u i skip.
Proof.
  induction i as [|i IH]; intros skip Hi; [done|].
  rewrite !TrimRightFunc_len_S. destruct skip as [|k].
  - rewrite substring_append_le by done.
    destruct (utf8.DecodeLastRuneInString _) as [r size].
    destruct (f r); [|done]. apply IH. lia.
  - apply IH. lia.
Qed.

Lemma TrimRightFunc_len_le f s : ∀ i skip,
  (strings.TrimRightFunc_len f s i skip ≤ i)%nat.
Proof.
  induction i as [|i IH]; intros skip; [done|].
  rewrite TrimRightFunc_len_S. destruct skip as [|k].
  - destruct (utf8.DecodeLastRuneInString _) as [r size].
    destruct (f r); [|done]. specialize (IH (size - 1)%nat). lia.
  - specialize (IH k). lia.
Qed.

Lemma DecodeLastRuneInString_LF u :
  utf8.DecodeLastRuneInString (u +:+ LF) = (10, 1%nat).
Proof.
  unfold utf8.DecodeLastRuneInString, utf8.byte_at.
  rewrite length_append_LF.
  replace (Z.to_nat (Z.of_nat (S (String.length u)) - 1)) with (String.length u)
    by lia.
  rewrite get_append_LF, byte_LF.
  by rewrite (proj2 (Z.eqb_neq _ 0)) by lia.
Qed.

Lemma TrimRightFunc_LF f u :
  f 10 = true →
  strings.TrimRightFunc (u +:+ LF) f = strings.TrimRightFunc u f.
Proof.
  intros Hf. unfold strings.TrimRightFunc.
  rewrite length_append_LF, TrimRightFunc_len_S.
  rewrite <- (length_append_LF u), substring_all, DecodeLastRuneInString_LF, Hf.
  change (1 - 1)%nat with 0%nat.
  rewrite TrimRightFunc_len_append by done.
  apply substring_append_le, TrimRightFunc_len_le.
Qed.

(** [strings.TrimSpace] does not see a line feed at the end. *)
Lemma TrimSpace_LF t : strings.TrimSpace (t +:+ LF) = strings.TrimSpace t.
Proof.
  unfold strings.TrimSpace, strings.TrimFunc, strings.TrimLeftFunc.
  rewrite TrimLeftFunc_from_LF by lia.
  destruct (strings.TrimLeftFunc_from unicode.IsSpace t 0) as [|c u]; [done|].
  by apply TrimRightFunc_LF.
Qed.

Lemma Split_snoc_other s c sep :
  c ≠ sep →
  ∃ l x,
    strings.Split s sep = l ++ [x]
    ∧ strings.Split (s +:+ String c "") sep = l ++ [x +:+ String c ""].
Proof.
  intros Hc. induction s as [|d s (l & x & Hs & Hsc)].
  - exists [], "". split; [done|].
    change ("" +:+ String c "") with (String c "").
    by rewrite Split_cons_other.
  - rewrite append_cons. destruct (decide (d = sep)) as [->|Hd].
    + exists ("" :: l), x. by rewrite !Split_cons_sep, Hs, Hsc.
    + rewrite !Split_cons_other, Hs, Hsc by done.
      destruct l as [|h r]; [by exists [], (String d x)|].
      by exists (String d h :: r), x.
Qed.

Lemma parseCmdline_range_tokens l1 : ∀ l2 oem,
  strings.TrimSpace <$> l1 = strings.TrimSpace <$> l2 →
  parseCmdline_range l1 oem = parseCmdline_range l2 oem.
Proof.
  induction l1 as [|a1 l1 IH]; intros [|a2 l2] oem Heq; try done.
  injection Heq as Ha Hl. simpl.
  assert (parseCmdline_arg oem a1 = parseCmdline_arg oem a2) as ->
    by (unfold parseCmdline_arg; by rewrite Ha).
  destruct (parseCmdline_arg oem a2); simpl; [by apply IH|done].
Qed.

(** X6: a line feed at the end of the boot parameters, as the kernel puts
    it at the end of [/proc/cmdline], does not change the result. *)
Theorem parseCmdline_LF cmdline :
  parseCmdline (cmdline +:+ LF) = parseCmdline cmdline.
Proof.
  unfold parseCmdline. apply parseCmdline_range_tokens.
  destruct (Split_snoc_other cmdline "010" " ") as (l & x & -> & Hsnoc);
    [done|].
  unfold LF. rewrite Hsnoc, !fmap_app. simpl. f_equal. f_equal.
  apply TrimSpace_LF.
Qed.

(** ** The paths through [main] *)

Lemma closed_set_package p :
  p ∈ closed_set ↔ ∃ pkg, p = package_name pkg.
Proof.
  rewrite closed_set_cases. split.
  - intros [-> | [-> | [-> | ->]]];
      [by exists azure|by exists ec2|by exists gce|by exists packet].
  - intros [[] ->]; simpl; tauto.
Qed.

Lemma fetchMetadata_package E pkg :
  fetchMetadata E (package_name pkg) = FetchMetadata_ E pkg.
Proof. by destruct pkg. Qed.

Lemma FetchMetadata_inv E pkg w r w' :
  FetchMetadata_ E pkg w = (Return r, w') →
  match r with
  | fail err =>
    provider_FetchMetadata E w pkg = fail err ∧ w' = log (FetchMetadata pkg) w
  | ok md =>
    ∃ fetched,
      provider_FetchMetadata E w pkg = ok fetched
      ∧ md = fst (place fetched (heap w))
      ∧ w' = set_heap (snd (place fetched (heap w))) (log (FetchMetadata pkg) w)
  end.
Proof.
  unfold FetchMetadata_.
  destruct (provider_FetchMetadata E w pkg) as [fetched|err].
  - destruct (place fetched (heap w)) as [md h] eqn:Hplace.
    intros [= <- <-]. exists fetched. by rewrite Hplace.
  - by intros [= <- <-].
Qed.

Lemma main_run_from_provider E f w p o w' :
  flags.version f = false →
  resolved E f w p →
  ((if decide (p = "azure" ∨ p = "ec2" ∨ p = "gce" ∨ p = "packet")
    then mret ()
    else
      Fprintf_Stderr ("invalid provider " +:+ strconv_Quote E p +:+ LF);;
      os_Exit 2);;
   r ← fetchMetadata E p;
   match r with
   | fail err =>
     Fprintf_Stderr ("failed to fetch metadata: " +:+ err +:+ LF);;
     os_Exit 1
   | ok metadata =>
     err ← writeMetadataAttributes E (flags.attributes f) metadata;
     match err with
     | Some e =>
       Fprintf_Stderr ("failed to write metadata attributes: " +:+ e +:+ LF);;
       os_Exit 1
     | None => mret ()
     end;;
     err ← writeMetadataKeys E (flags.sshKeys f) metadata;
     match err with
     | Some e =>
       Fprintf_Stderr ("failed to write metadata keys: " +:+ e +:+ LF);;
       os_Exit 1
     | None => mret ()
     end
   end) (after_resolve f w) = (o, w') →
  main_run E f w o w'.
Proof.
  intros Hversion Hresolved. case_decide as Hp.
  2:{ intros [= <- <-]. apply (run_invalid E f w p); [done..|].
      by rewrite closed_set_cases. }
  apply closed_set_cases, closed_set_package in Hp as [pkg ->].
  rewrite fetchMetadata_package.
  unfold mbind at 1 2, M_bind at 1 2, mret at 1, M_ret at 1.
  destruct (FetchMetadata_returns E pkg (after_resolve f w)) as [r Hr].
  destruct (FetchMetadata_ E pkg (after_resolve f w)) as [o2 w2] eqn:Hfetch.
  cbn [fst] in Hr. subst o2.
  destruct r as [md|err].
  2:{ apply FetchMetadata_inv in Hfetch as [Hfail ->]. intros [= <- <-].
      by apply (run_fetch_failed E f w pkg err). }
  unfold mbind at 1, M_bind at 1.
  destruct (writeMetadataAttributes_calls E (flags.attributes f) md w2)
    as (_ & _ & _ & Hattrs).
  destruct (writeMetadataAttributes E (flags.attributes f) md w2)
    as [o3 w3] eqn:Hwrite.
  cbn [fst] in Hattrs. destruct Hattrs as [-> | [[e|] ->]].
  { intros [= <- <-]. by eapply run_attributes_exit. }
  { intros [= <- <-]. by eapply run_attributes_failed. }
  unfold mbind, M_bind, mret, M_ret.
  destruct (writeMetadataKeys_returns E (flags.sshKeys f) md w3) as [err Hkeys].
  destruct (writeMetadataKeys E (flags.sshKeys f) md w3) as [o4 w4] eqn:Hinstall.
  cbn [fst] in Hkeys. subst o4. destruct err as [e|]; intros [= <- <-].
  - by eapply run_keys_failed.
  - by eapply run_done.
Qed.

Lemma main_runs E f w :
  main_run E f w (fst (main E f w)) (snd (main E f w)).
Proof.
  destruct (main E f w) as [o w'] eqn:Hmain. cbn [fst snd].
  revert Hmain. unfold main. destruct (flags.version f) eqn:Hversion.
  { intros [= <- <-]. by apply run_version. }
  pose proof (main_run_from_provider E f w) as Htail.
  unfold after_resolve in Htail.
  destruct (flags.cmdline f && bool_decide (flags.provider f = "")) eqn:Hcmd.
  - apply from_cmdline_test in Hcmd.
    unfold mbind at 1, M_bind at 1. unfold mbind at 1, M_bind at 1, ReadFile_.
    cbn beta iota.
    destruct (ioutil_ReadFile E w cmdlinePath) as [args|err] eqn:Hread.
    + destruct (parseCmdline_range_total (strings.Split args " ") "")
        as [oem Hoem].
      fold (parseCmdline args) in Hoem. rewrite Hoem.
      unfold mret at 1, M_ret at 1.
      apply Htail; [done|]. right. split; [done|]. by exists args.
    + run. intros [= <- <-]. by apply run_unreadable.
  - unfold mbind at 1, M_bind at 1, mret at 1, M_ret at 1.
    apply Htail; [done|]. left. split; [|done].
    rewrite <- from_cmdline_test. by rewrite Hcmd.
Qed.

(** ** More about the attribute writer *)

Lemma writeVariable_general E out key value w :
  ∃ datas err,
    writeVariable E out key value w
    = (Return err, snd (writeVariable E out key value w))
    ∧ trace (snd (writeVariable E out key value w))
      = trace w ++ (Write out <$> datas)
    ∧ datas `prefix_of` (line <$> filter populated [(key, value)])
    ∧ (err = None → datas = line <$> filter populated [(key, value)])
    ∧ (∀ name, name ≠ out →
         files (snd (writeVariable E out key value w)) !! name
         = files w !! name)
    ∧ heap (snd (writeVariable E out key value w)) = heap w.
Proof.
  unfold writeVariable. case_decide as Hlen.
  - rewrite filter_cons_True by exact (proj1 (length_positive value) Hlen).
    rewrite filter_nil. unfold Write_.
    destruct (file_Write E w out _) as [e|]; simpl.
    + exists [line (key, value)], (Some e). repeat split; try done.
    + exists [line (key, value)], None. repeat split; try done.
      intros name Hname. by rewrite lookup_insert_ne.
  - rewrite filter_cons_False
      by (intros Hne; exact (Hlen (proj2 (length_positive value) Hne))).
    exists [], None. simpl. rewrite app_nil_r. repeat split; try done.
Qed.

Lemma writeMetadataAttributes_range_general E out entries : ∀ w,
  ∃ datas err,
    writeMetadataAttributes_range E out entries w
    = (Return err, snd (writeMetadataAttributes_range E out entries w))
    ∧ trace (snd (writeMetadataAttributes_range E out entries w))
      = trace w ++ (Write out <$> datas)
    ∧ datas `prefix_of` (line <$> filter populated entries)
    ∧ (err = None → datas = line <$> filter populated entries)
    ∧ (∀ name, name ≠ out →
         files (snd (writeMetadataAttributes_range E out entries w)) !! name
         = files w !! name)
    ∧ heap (snd (writeMetadataAttributes_range E out entries w)) = heap w.
Proof.
  induction entries as [|[key value] entries IH]; intros w.
  - exists [], None. simpl. rewrite app_nil_r. repeat split; try done.
  - simpl. unfold mbind, M_bind.
    destruct (writeVariable_general E out key value w)
      as (datas1 & err1 & Hrun1 & Htrace1 & Hprefix1 & Hall1 & Hfiles1 & Hheap1).
    rewrite Hrun1.
    change ((key, value) :: entries) with ([(key, value)] ++ entries).
    rewrite filter_app, fmap_app.
    destruct err1 as [e|]; cbn [fst snd mret M_ret].
    + exists datas1, (Some e). repeat split; try done.
      by apply prefix_app_r.
    + destruct (IH (snd (writeVariable E out key value w)))
        as (datas2 & err2 & Hrun2 & Htrace2 & Hprefix2 & Hall2 & Hfiles2 & Hheap2).
      exists (datas1 ++ datas2), err2. rewrite (Hall1 eq_refl) in *.
      split; [done|]. split; [by rewrite Htrace2, Htrace1, fmap_app, app_assoc|].
      split; [by apply prefix_app|]. split; [by intros ->%Hall2|].
      split; [|congruence].
      intros name Hname. by rewrite Hfiles2, Hfiles1.
Qed.

Lemma trace_log e w : trace (log e w) = trace w ++ [e].
Proof. reflexivity. Qed.

Lemma files_log e w : files (log e w) = files w.
Proof. reflexivity. Qed.

Lemma trace_set_files fs w : trace (set_files fs w) = trace w.
Proof. reflexivity. Qed.

Lemma files_set_files fs w : files (set_files fs w) = fs.
Proof. reflexivity. Qed.

(** The attribute writer in a world where the directory and the file can
    be made: the calls, the result and the files. *)
Lemma writeMetadataAttributes_general E attributes md w :
  attributes ≠ "" →
  os_MkdirAll E w (path_Dir E attributes) 0x1ED = None →
  os_Create E (log (MkdirAll (path_Dir E attributes) 0x1ED) w) attributes
  = None →
  ∃ w0 datas err,
    fst (writeMetadataAttributes E attributes md w) = Return err
    ∧ trace (snd (writeMetadataAttributes E attributes md w))
      = trace w ++ MkdirAll (path_Dir E attributes) 0x1ED
                   :: Create attributes
                   :: (Write attributes <$> datas) ++ [Close attributes]
    ∧ datas `prefix_of`
        (line <$> filter populated
           (range_order E w0 (map_content (heap w) (Attributes md))))
    ∧ (err = None →
       datas = line <$> filter populated
                 (range_order E w0 (map_content (heap w) (Attributes md))))
    ∧ (∀ name, name ≠ attributes →
         files (snd (writeMetadataAttributes E attributes md w)) !! name
         = files w !! name).
Proof.
  intros Hpath Hmkdir Hcreate. unfold writeMetadataAttributes.
  rewrite decide_False by done.
  unfold mbind, M_bind, mret, M_ret, defer, MkdirAll_, Create_, Close_,
    range_map.
  rewrite Hmkdir. cbn beta iota. rewrite Hcreate. cbn beta iota.
  match goal with
  | |- context [writeMetadataAttributes_range E attributes ?entries ?w1] =>
    destruct (writeMetadataAttributes_range_general E attributes entries w1)
      as (datas & err & Hrun & Htrace & Hprefix & Hall & Hfiles & Hheap);
    rewrite Hrun
  end.
  eexists _, datas, err. cbn [fst snd]. split; [done|].
  split; [|split; [exact Hprefix|split; [exact Hall|]]].
  - rewrite trace_log, Htrace, trace_set_files, !trace_log.
    by rewrite <- !app_assoc.
  - intros name Hname. rewrite files_log, Hfiles by done.
    rewrite files_set_files. by rewrite lookup_insert_ne.
Qed.


Lemma writeMetadataAttributes_cannot_create_helper E attributes md w :
  attributes ≠ "" →
  (∀ e, os_MkdirAll E w (path_Dir E attributes) 0x1ED = Some e →
     files (snd (writeMetadataAttributes E attributes md w)) = files w)
  ∧ (∀ e, os_MkdirAll E w (path_Dir E attributes) 0x1ED = None →
       os_Create E (log (MkdirAll (path_Dir E attributes) 0x1ED) w) attributes
       = Some e →
       files (snd (writeMetadataAttributes E attributes md w)) = files w).
Proof.
  intros Hpath. unfold writeMetadataAttributes. rewrite decide_False by done.
  split.
  - intros e Hmkdir. run. by rewrite Hmkdir.
  - intros e Hmkdir Hcreate. run. rewrite Hmkdir. simpl. by rewrite Hcreate.
Qed.

(** X8: when the directory or the file cannot be made, the attribute
    writer does not return an error: it prints the cause and ends the
    process with status 1.  No file has changed, and after a failed
    [MkdirAll] not even [Create] is called. *)
Theorem writeMetadataAttributes_cannot_create E attributes md w :
  attributes ≠ "" →
  (∀ e, os_MkdirAll E w (path_Dir E attributes) 0x1ED = Some e →
     fst (writeMetadataAttributes E attributes md w) = Exit 1
     ∧ calls_since w (snd (writeMetadataAttributes E attributes md w))
       = [MkdirAll (path_Dir E attributes) 0x1ED;
          Stderr ("failed to create directory: " +:+ e +:+ LF)]
     ∧ files (snd (writeMetadataAttributes E attributes md w)) = files w)
  ∧ (∀ e, os_MkdirAll E w (path_Dir E attributes) 0x1ED = None →
       os_Create E (log (MkdirAll (path_Dir E attributes) 0x1ED) w) attributes
       = Some e →
       fst (writeMetadataAttributes E attributes md w) = Exit 1
       ∧ calls_since w (snd (writeMetadataAttributes E attributes md w))
         = [MkdirAll (path_Dir E attributes) 0x1ED; Create attributes;
            Stderr ("failed to create file: " +:+ e +:+ LF)]
       ∧ files (snd (writeMetadataAttributes E attributes md w)) = files w).
Proof.
  intros Hpath. unfold writeMetadataAttributes. rewrite decide_False by done.
  split.
  - intros e Hmkdir. run. rewrite Hmkdir. simpl. by calls.
  - intros e Hmkdir Hcreate. run. rewrite Hmkdir. simpl. rewrite Hcreate. simpl.
    by calls.
Qed.

(** X9: the attribute writer changes no file but the one it is given the
    path of, whatever the file system answers and however the call ends. *)
Theorem writeMetadataAttributes_other_files E attributes md w name :
  name ≠ attributes →
  files (snd (writeMetadataAttributes E attributes md w)) !! name
  = files w !! name.
Proof.
  intros Hname. destruct (decide (attributes = "")) as [->|Hpath]; [done|].
  destruct (os_MkdirAll E w (path_Dir E attributes) 0x1ED) as [e|] eqn:Hmkdir.
  { destruct (writeMetadataAttributes_cannot_create_helper E attributes md w
                Hpath) as [Hdir _].
    by rewrite (Hdir e Hmkdir). }
  destruct (os_Create E (log (MkdirAll (path_Dir E attributes) 0x1ED) w)
              attributes) as [e|] eqn:Hcreate.
  { destruct (writeMetadataAttributes_cannot_create_helper E attributes md w
                Hpath) as [_ Hfile].
    by rewrite (Hfile e Hmkdir Hcreate). }
  destruct (writeMetadataAttributes_general E attributes md w)
    as (_ & _ & _ & _ & _ & _ & _ & Hfiles); [done..|].
  by apply Hfiles.
Qed.


Lemma writeMetadataAttributes_cannot_create_sample :
  (fst (writeMetadataAttributes read_only "/run/metadata/coreos"
          sample_metadata keys_world) = Exit 1
   ∧ calls_since keys_world
       (snd (writeMetadataAttributes read_only "/run/metadata/coreos"
               sample_metadata keys_world))
     = [MkdirAll (path_Dir read_only "/run/metadata/coreos") 0x1ED;
        Stderr ("failed to create directory: " +:+ "read-only file system"
                +:+ LF)]
   ∧ files (snd (writeMetadataAttributes read_only "/run/metadata/coreos"
                   sample_metadata keys_world))
     = files keys_world)
  ∧ (fst (writeMetadataAttributes no_create "/run/metadata/coreos"
            sample_metadata keys_world) = Exit 1
     ∧ calls_since keys_world
         (snd (writeMetadataAttributes no_create "/run/metadata/coreos"
                 sample_metadata keys_world))
       = [MkdirAll (path_Dir no_create "/run/metadata/coreos") 0x1ED;
          Create "/run/metadata/coreos";
          Stderr ("failed to create file: " +:+ "permission denied" +:+ LF)]
     ∧ files (snd (writeMetadataAttributes no_create "/run/metadata/coreos"
                     sample_metadata keys_world))
       = files keys_world).
Proof.
  split.
  - apply (proj1 (writeMetadataAttributes_cannot_create read_only
                    "/run/metadata/coreos" sample_metadata keys_world
                    ltac:(discriminate))).
    reflexivity.
  - apply (proj2 (writeMetadataAttributes_cannot_create no_create
                    "/run/metadata/coreos" sample_metadata keys_world
                    ltac:(discriminate))); reflexivity.
Defined.

Lemma writeMetadataAttributes_other_files_hostname :
  files (snd (writeMetadataAttributes forward "/run/metadata/coreos"
                sample_metadata keys_world)) !! "/etc/hostname"
  = files keys_world !! "/etc/hostname".
Proof.
  apply (writeMetadataAttributes_other_files forward "/run/metadata/coreos"
           sample_metadata keys_world "/etc/hostname").
  discriminate.
Defined.

(** X10: the file is rewritten, not extended: after two runs of the
    attribute writer on the same path (on a file system that does not
    fail) the file holds the lines of the second metadata only. *)
Theorem writeMetadataAttributes_twice E attributes md1 md2 w :
  attributes ≠ "" →
  fs_ok E attributes →
  range_complete E →
  ∃ entries,
    entries ≡ₚ filter populated
                 (map_to_list (map_content (heap w) (Attributes md2)))
    ∧ files (snd (writeMetadataAttributes E attributes md2
                    (snd (writeMetadataAttributes E attributes md1 w))))
        !! attributes
      = Some (text (line <$> entries)).
Proof.
  intros Hpath Hfs Hrange.
  destruct (writeMetadataAttributes_ok E attributes md2
              (snd (writeMetadataAttributes E attributes md1 w)) Hpath Hfs)
    as (_ & w0 & Hfiles).
  rewrite (keeps_heap_writeMetadataAttributes E attributes md1 w) in Hfiles.
  eexists. split; [|exact Hfiles]. by apply range_order_populated.
Qed.

Lemma writeMetadataAttributes_twice_sample :
  ∃ entries,
    entries ≡ₚ filter populated
                 (map_to_list (map_content (heap sample_world) None))
    ∧ files (snd (writeMetadataAttributes forward "/run/metadata/coreos"
                    {| Attributes := None; SshKeys := None |}
                    (snd (writeMetadataAttributes forward "/run/metadata/coreos"
                            sample_metadata sample_world))))
        !! "/run/metadata/coreos"
      = Some (text (line <$> entries)).
Proof.
  apply (writeMetadataAttributes_twice forward "/run/metadata/coreos"
           sample_metadata {| Attributes := None; SshKeys := None |}
           sample_world).
  - discriminate.
  - apply fs_ok_machine.
  - intros w m. reflexivity.
Defined.

(** ** More about the key installer *)

(** X11: the life of the store in the key installer.  When [Open] fails
    its error is returned and the store is not touched further, not even
    closed.  Once the store is open it is closed as the last call on
    every path: after a failed [Add], whose error is returned without
    [Sync] being called, and after [Sync], whose result is the result of
    the installer.  The block is added under the name [coreos-metadata],
    with the keys joined by line feeds and both flags set. *)
Theorem writeMetadataKeys_store E username md w usr :
  username ≠ "" → SshKeys md ≠ None →
  user_Lookup E w username = ok usr →
  (∀ e, akd_Open E (log (Lookup username) w) usr true = Some e →
     fst (writeMetadataKeys E username md w) = Return (Some e)
     ∧ calls_since w (snd (writeMetadataKeys E username md w))
       = [Lookup username; AkdOpen usr true])
  ∧ (akd_Open E (log (Lookup username) w) usr true = None →
     (∀ e,
        akd_Add E (log (AkdOpen usr true) (log (Lookup username) w)) usr
          "coreos-metadata"
          (strings.Join (slice_content (heap w) (SshKeys md)) LF) true true
        = Some e →
        fst (writeMetadataKeys E username md w) = Return (Some e)
        ∧ calls_since w (snd (writeMetadataKeys E username md w))
          = [Lookup username; AkdOpen usr true;
             AkdAdd usr "coreos-metadata"
               (strings.Join (slice_content (heap w) (SshKeys md)) LF) true true;
             AkdClose usr])
     ∧ (akd_Add E (log (AkdOpen usr true) (log (Lookup username) w)) usr
          "coreos-metadata"
          (strings.Join (slice_content (heap w) (SshKeys md)) LF) true true
        = None →
        fst (writeMetadataKeys E username md w)
        = Return
            (akd_Sync E
               (log (AkdAdd usr "coreos-metadata"
                       (strings.Join (slice_content (heap w) (SshKeys md)) LF)
                       true true)
                  (log (AkdOpen usr true) (log (Lookup username) w)))
               usr)
        ∧ calls_since w (snd (writeMetadataKeys E username md w))
          = [Lookup username; AkdOpen usr true;
             AkdAdd usr "coreos-metadata"
               (strings.Join (slice_content (heap w) (SshKeys md)) LF) true true;
             AkdSync usr; AkdClose usr])).
Proof.
  intros Hname Hkeys Hlookup. unfold writeMetadataKeys.
  rewrite decide_False by tauto. run. rewrite Hlookup. simpl. split.
  - intros e Hopen. rewrite Hopen. simpl. by calls.
  - intros Hopen. rewrite Hopen. simpl. split.
    + intros e Hadd. rewrite Hadd. simpl. by calls.
    + intros Hadd. rewrite Hadd. simpl. by calls.
Qed.

Lemma writeMetadataKeys_shape E username md w :
  ∃ evs err,
    fst (writeMetadataKeys E username md w) = Return err
    ∧ trace (snd (writeMetadataKeys E username md w)) = trace w ++ evs
    ∧ Forall (λ e, key_call e = true) evs
    ∧ files (snd (writeMetadataKeys E username md w)) = files w.
Proof.
  unfold writeMetadataKeys. case_decide.
  { exists [], None. simpl. by rewrite app_nil_r. }
  run. destruct (user_Lookup E w username) as [usr|err]; simpl.
  2:{ eexists [_], _. repeat split. by repeat constructor. }
  destruct (akd_Open E _ usr true); simpl.
  { eexists [_; _], _. rewrite <- !app_assoc. repeat split.
    by repeat constructor. }
  destruct (akd_Add E _ usr _ _ _ _); simpl.
  - eexists [_; _; _; _], _. rewrite <- !app_assoc. repeat split.
    by repeat constructor.
  - eexists [_; _; _; _; _], _. rewrite <- !app_assoc. repeat split.
    by repeat constructor.
Qed.

(** X12: the key installer always comes back to its caller: it never ends
    the process and never panics, whatever fails; and the only calls it
    makes are the lookup of the user and calls on the store: it calls
    nothing on the file system itself and prints nothing. *)
Theorem writeMetadataKeys_returns_to_caller E username md w :
  (∃ err, fst (writeMetadataKeys E username md w) = Return err)
  ∧ Forall (λ e, key_call e = true)
      (calls_since w (snd (writeMetadataKeys E username md w))).
Proof.
  destruct (writeMetadataKeys_shape E username md w)
    as (evs & err & Hret & Htrace & Hcalls & _).
  split; [by exists err|].
  by rewrite (calls_since_app _ _ evs).
Qed.

Lemma Split_free_of_one s sep : free_of sep s → strings.Split s sep = [s].
Proof.
  unfold free_of. induction s as [|c s IH]; [done|]. simpl.
  case_decide as Hc; [done|]. intros Hs.
  by rewrite Split_cons_other, IH.
Qed.

(** The block of keys read line by line gives the keys back. *)
Lemma Split_Join keys :
  keys ≠ [] →
  Forall (free_of "010") keys →
  strings.Split (strings.Join keys LF) "010" = keys.
Proof.
  induction keys as [|a [|b rest] IH]; intros Hne Hfree; [done| |].
  - apply Forall_cons in Hfree as [Ha _]. by apply Split_free_of_one.
  - apply Forall_cons in Hfree as [Ha Hrest].
    change (strings.Join (a :: b :: rest) LF)
      with (a +:+ String "010" (strings.Join (b :: rest) LF)).
    rewrite Split_append, IH, Split_free_of_one by done. done.
Qed.

(** X13: when the user is found and the store opens, the content handed
    to [Add] holds the keys one per line, in their order: for keys that
    are not empty in number and hold no line feed, splitting the content
    at the line feeds gives the keys back. *)
Theorem writeMetadataKeys_one_key_per_line E username md w usr :
  username ≠ "" → SshKeys md ≠ None →
  slice_content (heap w) (SshKeys md) ≠ [] →
  Forall (free_of "010") (slice_content (heap w) (SshKeys md)) →
  user_Lookup E w username = ok usr →
  akd_Open E (log (Lookup username) w) usr true = None →
  ∃ content,
    AkdAdd usr "coreos-metadata" content true true
      ∈ calls_since w (snd (writeMetadataKeys E username md w))
    ∧ strings.Split content "010" = slice_content (heap w) (SshKeys md).
Proof.
  intros Hname Hkeys Hne Hfree Hlookup Hopen.
  exists (strings.Join (slice_content (heap w) (SshKeys md)) LF).
  split; [|by apply Split_Join].
  unfold writeMetadataKeys.
  rewrite decide_False by tauto. run. rewrite Hlookup. simpl.
  rewrite Hopen. simpl.
  destruct (akd_Add E _ usr _ _ _ _); simpl; calls;
    rewrite !elem_of_cons; tauto.
Qed.

(** ** More about [main] *)

Lemma after_resolve_world f w :
  ∃ pre,
    (pre = [] ∨ pre = [ReadFile cmdlinePath])
    ∧ trace (after_resolve f w) = trace w ++ pre
    ∧ files (after_resolve f w) = files w
    ∧ heap (after_resolve f w) = heap w
    ∧ (¬ from_cmdline f → pre = []).
Proof.
  unfold after_resolve.
  destruct (flags.cmdline f && bool_decide (flags.provider f = "")) eqn:Hcmd.
  - exists [ReadFile cmdlinePath]. repeat split; [by right|].
    by apply from_cmdline_test in Hcmd.
  - exists []. rewrite app_nil_r. repeat split. by left.
Qed.

Lemma FetchMetadata_ok_world E pkg w md w' :
  FetchMetadata_ E pkg w = (Return (ok md), w') →
  trace w' = trace w ++ [FetchMetadata pkg] ∧ files w' = files w.
Proof. by intros (fetched & _ & _ & ->)%FetchMetadata_inv. Qed.

Lemma writeMetadataAttributes_shape E attributes md w :
  ∃ evs,
    trace (snd (writeMetadataAttributes E attributes md w)) = trace w ++ evs
    ∧ Forall (λ e, attribute_call e = true) evs.
Proof.
  destruct (decide (attributes = "")) as [->|Hpath].
  { exists []. by rewrite app_nil_r. }
  destruct (os_MkdirAll E w (path_Dir E attributes) 0x1ED) as [e|] eqn:Hmkdir.
  { unfold writeMetadataAttributes. rewrite decide_False by done. run.
    rewrite Hmkdir. simpl. eexists [_; _]. rewrite <- !app_assoc.
    split; [done|]. by repeat constructor. }
  destruct (os_Create E (log (MkdirAll (path_Dir E attributes) 0x1ED) w)
              attributes) as [e|] eqn:Hcreate.
  { unfold writeMetadataAttributes. rewrite decide_False by done. run.
    rewrite Hmkdir. simpl. rewrite Hcreate. simpl.
    eexists [_; _; _]. rewrite <- !app_assoc.
    split; [done|]. by repeat constructor. }
  destruct (writeMetadataAttributes_general E attributes md w)
    as (_ & datas & _ & _ & Htrace & _); [done..|].
  eexists. split; [exact Htrace|].
  repeat constructor. apply Forall_app. split; [|by repeat constructor].
  by apply Forall_fmap, Forall_true.
Qed.

(** The calls of a whole run, step by step. *)
Lemma main_calls E f w :
  ∃ pre fetch attrs keys last,
    calls_since w (snd (main E f w)) = pre ++ fetch ++ attrs ++ keys ++ last
    ∧ (pre = [] ∨ pre = [ReadFile cmdlinePath])
    ∧ (¬ from_cmdline f → pre = [])
    ∧ (fetch = [] ∨ ∃ pkg, fetch = [FetchMetadata pkg])
    ∧ Forall (λ e, attribute_call e = true) attrs
    ∧ Forall (λ e, key_call e = true) keys
    ∧ (last = [] ∨ ∃ text, last = [Stdout text] ∨ last = [Stderr text])
    ∧ (fst (main E f w) = Exit 2 →
       fetch = [] ∧ attrs = [] ∧ keys = []
       ∧ files (snd (main E f w)) = files w
       ∧ heap (snd (main E f w)) = heap w)
    ∧ (flags.version f = false →
       keys ≠ [] ∨ fst (main E f w) = Return () →
       ∃ md w2,
         fst (writeMetadataAttributes E (flags.attributes f) md w2)
         = Return None).
Proof.
  destruct (after_resolve_world f w)
    as (pre & Hpre & Htrace1 & Hfiles1 & Hheap1 & Hflag).
  pose proof (main_runs E f w) as Hrun.
  destruct (main E f w) as [o w']. cbn [fst snd] in *.
  inversion Hrun as
    [ Hv
    | err Hv Hcmd Hread
    | p Hv Hres Hp
    | pkg err Hv Hres Hfetch
    | pkg md w2 w3 Hv Hres Hfetch Hattrs
    | pkg md w2 w3 e Hv Hres Hfetch Hattrs
    | pkg md w2 w3 w4 e Hv Hres Hfetch Hattrs Hkeys
    | pkg md w2 w3 w4 Hv Hres Hfetch Hattrs Hkeys ]; subst.
  - exists [], [], [], [], [Stdout (versionString +:+ LF)].
    split; [by calls|]. repeat split; eauto; try done; try congruence;
      try (by intros _ [?|?]);
      try (intros _ _; exists md, w2; by rewrite Hattrs).
  - exists [ReadFile cmdlinePath], [], [], [], [Stderr ("could not read cmdline: " +:+ err +:+ LF)].
    split; [by calls|]. repeat split; eauto; try done;
      try (by intros _ [?|?]);
      try (intros _ _; exists md, w2; by rewrite Hattrs).
  - exists pre, [], [], [], [Stderr ("invalid provider " +:+ strconv_Quote E p +:+ LF)].
    split; [apply calls_since_app; by rewrite trace_log, Htrace1, <- app_assoc|].
    repeat split; eauto; try done; try (by intros _ [?|?]).
  - exists pre, [FetchMetadata pkg], [], [],
      [Stderr ("failed to fetch metadata: " +:+ err +:+ LF)].
    split; [apply calls_since_app; by rewrite !trace_log, Htrace1, <- !app_assoc|].
    repeat split; eauto; try done;
      try (by intros _ [?|?]);
      try (intros _ _; exists md, w2; by rewrite Hattrs).
  - apply FetchMetadata_ok_world in Hfetch as [Htrace2 _].
    destruct (writeMetadataAttributes_shape E (flags.attributes f) md w2)
      as (attrs & Htrace3 & Hkind). rewrite Hattrs in Htrace3.
    exists pre, [FetchMetadata pkg], attrs, [], [].
    split; [apply calls_since_app; cbn [snd] in Htrace3;
            by rewrite Htrace3, Htrace2, Htrace1, <- !app_assoc, !app_nil_r|].
    repeat split; eauto; try done;
      try (by intros _ [?|?]);
      try (intros _ _; exists md, w2; by rewrite Hattrs).
  - apply FetchMetadata_ok_world in Hfetch as [Htrace2 _].
    destruct (writeMetadataAttributes_shape E (flags.attributes f) md w2)
      as (attrs & Htrace3 & Hkind). rewrite Hattrs in Htrace3.
    exists pre, [FetchMetadata pkg], attrs, [],
      [Stderr ("failed to write metadata attributes: " +:+ e +:+ LF)].
    split; [apply calls_since_app; cbn [snd] in Htrace3;
            by rewrite trace_log, Htrace3, Htrace2, Htrace1, <- !app_assoc|].
    repeat split; eauto; try done;
      try (by intros _ [?|?]);
      try (intros _ _; exists md, w2; by rewrite Hattrs).
  - apply FetchMetadata_ok_world in Hfetch as [Htrace2 _].
    destruct (writeMetadataAttributes_shape E (flags.attributes f) md w2)
      as (attrs & Htrace3 & Hkind). rewrite Hattrs in Htrace3.
    destruct (writeMetadataKeys_shape E (flags.sshKeys f) md w3)
      as (keys & _ & _ & Htrace4 & Hkind4 & _). rewrite Hkeys in Htrace4.
    exists pre, [FetchMetadata pkg], attrs, keys,
      [Stderr ("failed to write metadata keys: " +:+ e +:+ LF)].
    split; [apply calls_since_app; cbn [snd] in Htrace3, Htrace4;
            by rewrite trace_log, Htrace4, Htrace3, Htrace2, Htrace1,
              <- !app_assoc|].
    repeat split; eauto; try done;
      try (by intros _ [?|?]);
      try (intros _ _; exists md, w2; by rewrite Hattrs).
  - apply FetchMetadata_ok_world in Hfetch as [Htrace2 _].
    destruct (writeMetadataAttributes_shape E (flags.attributes f) md w2)
      as (attrs & Htrace3 & Hkind). rewrite Hattrs in Htrace3.
    destruct (writeMetadataKeys_shape E (flags.sshKeys f) md w3)
      as (keys & _ & _ & Htrace4 & Hkind4 & _). rewrite Hkeys in Htrace4.
    exists pre, [FetchMetadata pkg], attrs, keys, [].
    split; [apply calls_since_app; cbn [snd] in Htrace3, Htrace4;
            by rewrite Htrace4, Htrace3, Htrace2, Htrace1,
              <- !app_assoc, !app_nil_r|].
    repeat split; eauto; try done;
      try (by intros _ [?|?]);
      try (intros _ _; exists md, w2; by rewrite Hattrs).
Qed.

(** X14: a run is strictly sequential.  Its calls are, in this order: at
    most one read of the boot parameters, at most one fetch, the calls of
    the attribute writer, the calls of the key installer, and at most one
    closing message.  No key call comes before a file call, and nothing
    is written before the fetch. *)
Theorem main_sequence E f w :
  ∃ pre fetch attrs keys last,
    calls_since w (snd (main E f w)) = pre ++ fetch ++ attrs ++ keys ++ last
    ∧ (pre = [] ∨ pre = [ReadFile cmdlinePath])
    ∧ (fetch = [] ∨ ∃ pkg, fetch = [FetchMetadata pkg])
    ∧ Forall (λ e, attribute_call e = true) attrs
    ∧ Forall (λ e, key_call e = true) keys
    ∧ (last = [] ∨ ∃ text, last = [Stdout text] ∨ last = [Stderr text]).
Proof.
  destruct (main_calls E f w)
    as (pre & fetch & attrs & keys & last & Hcalls & Hpre & _ & Hfetch & Hattrs
        & Hkeys & Hlast & _ & _).
  by exists pre, fetch, attrs, keys, last.
Qed.

(** X15: the boot parameters are read only when they are asked for and no
    provider is given: with [--provider], or without [--cmdline], no run
    calls [ReadFile]. *)
Theorem main_reads_cmdline_on_demand E f w :
  ¬ from_cmdline f →
  Forall (λ e, reads_file e = false) (calls_since w (snd (main E f w))).
Proof.
  intros Hflag.
  destruct (main_calls E f w)
    as (pre & fetch & attrs & keys & last & -> & _ & Hpre & Hfetch & Hattrs
        & Hkeys & Hlast & _ & _).
  rewrite (Hpre Hflag). rewrite !Forall_app. repeat split.
  - constructor.
  - destruct Hfetch as [->|[pkg ->]]; by repeat constructor.
  - eapply Forall_impl; [exact Hattrs|]. by intros [].
  - eapply Forall_impl; [exact Hkeys|]. by intros [].
  - destruct Hlast as [->|[text [-> | ->]]]; by repeat constructor.
Qed.

Lemma main_reads_cmdline_on_demand_ec2 :
  Forall (λ e, reads_file e = false)
    (calls_since sample_world (snd (main forward flags_ec2 sample_world))).
Proof.
  apply (main_reads_cmdline_on_demand forward flags_ec2 sample_world).
  intros [Hcmd _]. discriminate Hcmd.
Defined.

(** X16: a run ends in one of three ways: [main] returns (status 0), or the
    process exits with status 1 or 2.  Status 2 is a complaint about the
    configuration made before anything else is touched: the calls are the
    read of the boot parameters, if any, and one message on standard
    error; there was no fetch, and files and heap are as before. *)
Theorem main_exit_status E f w :
  (fst (main E f w) = Return () ∨ fst (main E f w) = Exit 1
   ∨ fst (main E f w) = Exit 2)
  ∧ (fst (main E f w) = Exit 2 →
     files (snd (main E f w)) = files w
     ∧ heap (snd (main E f w)) = heap w
     ∧ ∃ pre text,
         (pre = [] ∨ pre = [ReadFile cmdlinePath])
         ∧ calls_since w (snd (main E f w)) = pre ++ [Stderr text]).
Proof.
  destruct (after_resolve_world f w)
    as (pre & Hpre & Htrace1 & Hfiles1 & Hheap1 & _).
  pose proof (main_runs E f w) as Hrun.
  destruct (main E f w) as [o w']. cbn [fst snd] in *.
  inversion Hrun; subst; (split; [tauto|]); try discriminate; intros _.
  - repeat split. eexists [ReadFile cmdlinePath], _.
    split; [by right|]. by calls.
  - split; [done|]. split; [done|]. eexists pre, _. split; [done|].
    apply calls_since_app. by rewrite trace_log, Htrace1, <- app_assoc.
Qed.

Lemma main_exit_status_foo :
  files (snd (main forward flags_foo sample_world)) = files sample_world
  ∧ heap (snd (main forward flags_foo sample_world)) = heap sample_world
  ∧ ∃ pre text,
      (pre = [] ∨ pre = [ReadFile cmdlinePath])
      ∧ calls_since sample_world (snd (main forward flags_foo sample_world))
        = pre ++ [Stderr text].
Proof.
  apply (proj2 (main_exit_status forward flags_foo sample_world)).
  reflexivity.
Defined.

Lemma resolved_functional E f w p q :
  resolved E f w p → resolved E f w q → p = q.
Proof.
  intros [[Hp ->]|(Hp & args & Hread & Hparse)]
         [[Hq ->]|(Hq & args' & Hread' & Hparse')]; try done.
  rewrite Hread in Hread'. injection Hread' as <-. congruence.
Qed.

Lemma package_name_inj pkg pkg' :
  package_name pkg = package_name pkg' → pkg = pkg'.
Proof. by destruct pkg, pkg'. Qed.

Lemma resolved_readable E f w p err :
  resolved E f w p → from_cmdline f →
  ioutil_ReadFile E w cmdlinePath = fail err → False.
Proof.
  intros [[Hp _]|(_ & args & Hread & _)] Hcmd Hfail; [done|congruence].
Qed.

(** X17: when the provider fails, the run ends there: the error is printed
    behind [failed to fetch metadata: ], the process exits with status 1,
    and neither writer is called: no file has changed. *)
Theorem main_fetch_fails E f w pkg err :
  flags.version f = false →
  resolved E f w (package_name pkg) →
  provider_FetchMetadata E (after_resolve f w) pkg = fail err →
  main E f w
  = (Exit 1,
     log (Stderr ("failed to fetch metadata: " +:+ err +:+ LF))
       (log (FetchMetadata pkg) (after_resolve f w)))
  ∧ files (snd (main E f w)) = files w.
Proof.
  intros Hversion Hresolved Hfail.
  destruct (after_resolve_world f w) as (pre & _ & _ & Hfiles1 & _).
  pose proof (main_runs E f w) as Hrun.
  destruct (main E f w) as [o w']. cbn [fst snd] in *.
  inversion Hrun as
    [ Hv
    | err' Hv Hcmd Hread
    | p Hv Hres Hp
    | pkg' err' Hv Hres Hfetch
    | pkg' md w2 w3 Hv Hres Hfetch Hattrs
    | pkg' md w2 w3 e Hv Hres Hfetch Hattrs
    | pkg' md w2 w3 w4 e Hv Hres Hfetch Hattrs Hkeys
    | pkg' md w2 w3 w4 Hv Hres Hfetch Hattrs Hkeys ]; subst;
    try congruence;
    try (by destruct (resolved_readable E f w _ _ Hresolved Hcmd Hread));
    try (destruct Hp; rewrite (resolved_functional _ _ _ _ _ Hres Hresolved);
         apply closed_set_package; by eexists);
    try (apply (resolved_functional _ _ _ _ _ Hresolved), package_name_inj
           in Hres as <-;
         apply FetchMetadata_inv in Hfetch as (fetched & Hok & _); congruence).
  apply (resolved_functional _ _ _ _ _ Hresolved), package_name_inj in Hres as <-.
  rewrite Hfail in Hfetch. injection Hfetch as <-. done.
Qed.

Lemma main_fetch_fails_sample :
  main no_answer flags_ec2 sample_world
  = (Exit 1,
     log (Stderr ("failed to fetch metadata: " +:+ "connection refused" +:+ LF))
       (log (FetchMetadata ec2) (after_resolve flags_ec2 sample_world)))
  ∧ files (snd (main no_answer flags_ec2 sample_world)) = files sample_world.
Proof.
  apply (main_fetch_fails no_answer flags_ec2 sample_world ec2
           "connection refused").
  - reflexivity.
  - left. split; [|reflexivity]. intros [Hcmd _]. discriminate Hcmd.
  - reflexivity.
Defined.

(** X18: with [--cmdline] and no [--provider], when [/proc/cmdline] cannot
    be read the run prints the cause and exits with status 2; the read is
    the only call it has made. *)
Theorem main_cmdline_unreadable E f w err :
  flags.version f = false →
  from_cmdline f →
  ioutil_ReadFile E w cmdlinePath = fail err →
  main E f w
  = (Exit 2,
     log (Stderr ("could not read cmdline: " +:+ err +:+ LF))
       (log (ReadFile cmdlinePath) w)).
Proof.
  intros Hversion Hcmd Hread. apply from_cmdline_test in Hcmd.
  unfold main. rewrite Hversion, Hcmd. run. by rewrite Hread.
Qed.

Lemma main_cmdline_unreadable_sample :
  main no_cmdline flags_nobody sample_world
  = (Exit 2,
     log (Stderr ("could not read cmdline: " +:+ "permission denied" +:+ LF))
       (log (ReadFile cmdlinePath) sample_world)).
Proof.
  apply (main_cmdline_unreadable no_cmdline flags_nobody sample_world
           "permission denied"); [reflexivity|by split|reflexivity].
Defined.

Lemma writeMetadataAttributes_exits E attributes md w e :
  attributes ≠ "" →
  (∀ w', os_MkdirAll E w' (path_Dir E attributes) 0x1ED = Some e)
  ∨ (∀ w', os_Create E w' attributes = Some e) →
  fst (writeMetadataAttributes E attributes md w) = Exit 1.
Proof.
  intros Hpath Hfail. unfold writeMetadataAttributes.
  rewrite decide_False by done. run.
  destruct Hfail as [Hmkdir|Hcreate].
  - by rewrite Hmkdir.
  - destruct (os_MkdirAll E w _ _); simpl; [done|]. by rewrite Hcreate.
Qed.

(** X19: attributes come first.  When the attribute file is asked for and
    its directory or the file itself cannot be made, no run returns from
    [main] and no run makes a call for the keys: the user is not looked up
    and no store is opened. *)
Theorem main_attributes_first E f w e :
  flags.version f = false →
  flags.attributes f ≠ "" →
  (∀ w', os_MkdirAll E w' (path_Dir E (flags.attributes f)) 0x1ED = Some e)
  ∨ (∀ w', os_Create E w' (flags.attributes f) = Some e) →
  fst (main E f w) ≠ Return ()
  ∧ Forall (λ ev, key_call ev = false) (calls_since w (snd (main E f w))).
Proof.
  intros Hversion Hpath Hfail.
  destruct (main_calls E f w)
    as (pre & fetch & attrs & keys & last & -> & Hpre & _ & Hfetch & Hattrs
        & Hkeys & Hlast & _ & Hgate).
  assert (¬ (keys ≠ [] ∨ fst (main E f w) = Return ())) as Hno.
  { intros Hyes. destruct (Hgate Hversion Hyes) as (md & w2 & Hret).
    by rewrite (writeMetadataAttributes_exits E _ md w2 e) in Hret. }
  split; [tauto|].
  assert (keys = []) as -> by (destruct keys; [done|]; destruct Hno; by left).
  rewrite !Forall_app. repeat split.
  - destruct Hpre as [-> | ->]; by repeat constructor.
  - destruct Hfetch as [->|[pkg ->]]; by repeat constructor.
  - eapply Forall_impl; [exact Hattrs|]. by intros [].
  - constructor.
  - destruct Hlast as [->|[text [-> | ->]]]; by repeat constructor.
Qed.

Lemma main_attributes_first_sample :
  fst (main read_only_fetched flags_ec2 sample_world) ≠ Return ()
  ∧ Forall (λ ev, key_call ev = false)
      (calls_since sample_world
         (snd (main read_only_fetched flags_ec2 sample_world))).
Proof.
  apply (main_attributes_first read_only_fetched flags_ec2 sample_world
           "read-only file system").
  - reflexivity.
  - discriminate.
  - left. intros w'. reflexivity.
Defined.

(** ** Dispatch *)

(** X20: [fetchMetadata] asks the provider whose name it is given, once and
    without another call, and hands back what the provider answers; for
    any other identifier it panics with [bad provider] before any call. *)
Theorem fetchMetadata_dispatch E :
  (∀ pkg w,
     fetchMetadata E (package_name pkg) w = FetchMetadata_ E pkg w
     ∧ calls_since w (snd (fetchMetadata E (package_name pkg) w))
       = [FetchMetadata pkg]
     ∧ files (snd (fetchMetadata E (package_name pkg) w)) = files w
     ∧ ∀ err, provider_FetchMetadata E w pkg = fail err →
              fst (fetchMetadata E (package_name pkg) w) = Return (fail err))
  ∧ (∀ p w, (∀ pkg, p ≠ package_name pkg) →
       fetchMetadata E p w = (Panic "bad provider", w)).
Proof.
  split.
  - intros pkg w. rewrite fetchMetadata_package. split; [done|].
    unfold FetchMetadata_.
    destruct (provider_FetchMetadata E w pkg) as [fetched|err].
    + destruct (place fetched (heap w)) as [md h]. simpl.
      split; [by apply calls_since_app|]. split; [done|]. by intros err.
    + simpl. split; [by calls|]. split; [done|]. by intros ? [= <-].
  - intros p w Hp. unfold fetchMetadata.
    rewrite !decide_False; [done|..].
    + apply (Hp packet).
    + apply (Hp gce).
    + apply (Hp ec2).
    + apply (Hp azure).
Qed.

Lemma fetchMetadata_dispatch_sample :
  fst (fetchMetadata timeout (package_name gce) sample_world)
  = Return (fail "timeout")
  ∧ fetchMetadata forward "digitalocean" sample_world
    = (Panic "bad provider", sample_world).
Proof.
  split.
  - apply (proj1 (fetchMetadata_dispatch timeout) gce sample_world).
    reflexivity.
  - apply (proj2 (fetchMetadata_dispatch forward) "digitalocean" sample_world).
    intros []; discriminate.
Defined.

(** ** A run without failures *)

Lemma place_content fetched h keys :
  map_content (snd (place fetched h)) (Attributes (fst (place fetched h)))
  = default ∅ (fetched_attributes fetched)
  ∧ (fetched_keys fetched = Some keys →
     SshKeys (fst (place fetched h)) ≠ None
     ∧ slice_content (snd (place fetched h)) (SshKeys (fst (place fetched h)))
       = keys).
Proof.
  unfold place, alloc_map, alloc_array.
  destruct (fetched_attributes fetched) as [m|],
           (fetched_keys fetched) as [a|]; simpl;
    rewrite ?lookup_insert_eq; split; try done;
    intros [= ->]; by rewrite ?lookup_insert_eq.
Qed.

Lemma writeMetadataKeys_all_ok E username md w usr :
  username ≠ "" → SshKeys md ≠ None →
  (∀ w', user_Lookup E w' username = ok usr) →
  (∀ w', akd_Open E w' usr true = None) →
  (∀ w' content, akd_Add E w' usr "coreos-metadata" content true true = None) →
  (∀ w', akd_Sync E w' usr = None) →
  fst (writeMetadataKeys E username md w) = Return None
  ∧ trace (snd (writeMetadataKeys E username md w))
    = trace w ++ [Lookup username; AkdOpen usr true;
                  AkdAdd usr "coreos-metadata"
                    (strings.Join (slice_content (heap w) (SshKeys md)) LF)
                    true true;
                  AkdSync usr; AkdClose usr].
Proof.
  intros Hname Hkeys Hlookup Hopen Hadd Hsync. unfold writeMetadataKeys.
  rewrite decide_False by tauto. run. rewrite Hlookup. simpl.
  rewrite Hopen. simpl. rewrite Hadd. simpl. rewrite Hsync.
  split; [done|]. by rewrite <- !app_assoc.
Qed.

(** X21: the run in which nothing fails.  With a provider of the closed
    set that answers, a file system that does not fail, a user that
    exists and a store that works, [main] returns; the attribute file
    holds the lines of the populated attributes the provider gave, in some
    order, and the last calls of the run install the fetched keys, joined
    by line feeds, in the block [coreos-metadata] of that user and sync
    and close the store. *)
Theorem main_succeeds E f w pkg fetched keys usr :
  flags.version f = false →
  resolved E f w (package_name pkg) →
  provider_FetchMetadata E (after_resolve f w) pkg = ok fetched →
  fetched_keys fetched = Some keys →
  flags.attributes f ≠ "" →
  fs_ok E (flags.attributes f) →
  range_complete E →
  flags.sshKeys f ≠ "" →
  (∀ w', user_Lookup E w' (flags.sshKeys f) = ok usr) →
  (∀ w', akd_Open E w' usr true = None) →
  (∀ w' content, akd_Add E w' usr "coreos-metadata" content true true = None) →
  (∀ w', akd_Sync E w' usr = None) →
  fst (main E f w) = Return ()
  ∧ (∃ entries,
       entries ≡ₚ filter populated
                    (map_to_list (default ∅ (fetched_attributes fetched)))
       ∧ files (snd (main E f w)) !! flags.attributes f
         = Some (text (line <$> entries)))
  ∧ ∃ before,
      calls_since w (snd (main E f w))
      = before ++ [Lookup (flags.sshKeys f); AkdOpen usr true;
                   AkdAdd usr "coreos-metadata" (strings.Join keys LF) true true;
                   AkdSync usr; AkdClose usr].
Proof.
  intros Hversion Hresolved Hfetched Hfkeys Hpath Hfs Hrange Hname
    Hlookup Hopen Hadd Hsync.
  destruct (after_resolve_world f w) as (pre & _ & Htrace1 & _).
  pose proof (main_runs E f w) as Hrun.
  destruct (main E f w) as [o w']. cbn [fst snd] in *.
  inversion Hrun as
    [ Hv
    | err' Hv Hcmd Hread
    | p Hv Hres Hp
    | pkg' err' Hv Hres Hfetch
    | pkg' md w2 w3 Hv Hres Hfetch Hattrs
    | pkg' md w2 w3 e Hv Hres Hfetch Hattrs
    | pkg' md w2 w3 w4 e Hv Hres Hfetch Hattrs Hkeys
    | pkg' md w2 w3 w4 Hv Hres Hfetch Hattrs Hkeys ]; subst;
    try congruence;
    try (by destruct (resolved_readable E f w _ _ Hresolved Hcmd Hread));
    try (destruct Hp; rewrite (resolved_functional _ _ _ _ _ Hres Hresolved);
         apply closed_set_package; by eexists);
    try (apply (resolved_functional _ _ _ _ _ Hresolved), package_name_inj
           in Hres as <-);
    try congruence;
    try (pose proof (proj1 (writeMetadataAttributes_ok E (flags.attributes f)
                              md w2 Hpath Hfs)) as Hnil;
         rewrite Hattrs in Hnil; discriminate Hnil).
  - apply FetchMetadata_inv in Hfetch as (fetched' & Hok & -> & ->).
    rewrite Hfetched in Hok. injection Hok as <-.
    destruct (place_content fetched (heap (after_resolve f w)) keys)
      as [_ Hplace]. destruct (Hplace Hfkeys) as [Hsome _].
    destruct (writeMetadataKeys_all_ok E (flags.sshKeys f) _ w3 usr
                Hname Hsome Hlookup Hopen Hadd Hsync) as [Hret _].
    rewrite Hkeys in Hret. discriminate Hret.
  - apply FetchMetadata_inv in Hfetch as (fetched' & Hok & -> & ->).
    rewrite Hfetched in Hok. injection Hok as <-.
    destruct (place_content fetched (heap (after_resolve f w)) keys)
      as [Hmap Hplace]. destruct (Hplace Hfkeys) as [Hsome Hslice].
    destruct (writeMetadataKeys_all_ok E (flags.sshKeys f) _ w3 usr
                Hname Hsome Hlookup Hopen Hadd Hsync) as [_ Htrace4].
    destruct (writeMetadataKeys_shape E (flags.sshKeys f)
                (place fetched (heap (after_resolve f w))).1 w3)
      as (_ & _ & _ & _ & _ & Hfiles4).
    rewrite Hkeys in Htrace4, Hfiles4. cbn [snd] in Htrace4, Hfiles4.
    match type of Hattrs with
    | writeMetadataAttributes E ?a ?md ?w2 = _ =>
      destruct (writeMetadataAttributes_ok E a md w2 Hpath Hfs)
        as (_ & w0 & Hfiles3);
      destruct (writeMetadataAttributes_shape E a md w2) as (attrs & Htrace3 & _);
      pose proof (keeps_heap_writeMetadataAttributes E a md w2) as Hheap3
    end.
    rewrite Hattrs in Hfiles3, Htrace3, Hheap3.
    cbn [snd] in Hfiles3, Htrace3, Hheap3.
    split; [done|]. split.
    + eexists. split; [|rewrite Hfiles4; exact Hfiles3].
      cbn [heap set_heap]. rewrite Hmap. by apply range_order_populated.
    + exists (pre ++ FetchMetadata pkg :: attrs). apply calls_since_app.
      rewrite Htrace4, Htrace3, Hheap3. cbn [heap set_heap trace log].
      rewrite Hslice, Htrace1. by rewrite <- !app_assoc.
Qed.

Lemma main_succeeds_sample :
  fst (main (machine id (ok region_fetched)) flags_ec2 empty_world) = Return ()
  ∧ (∃ entries,
       entries ≡ₚ filter populated
                    (map_to_list
                       (default ∅ (fetched_attributes region_fetched)))
       ∧ files (snd (main (machine id (ok region_fetched)) flags_ec2
                       empty_world)) !! flags.attributes flags_ec2
         = Some (text (line <$> entries)))
  ∧ ∃ before,
      calls_since empty_world
        (snd (main (machine id (ok region_fetched)) flags_ec2 empty_world))
      = before ++ [Lookup (flags.sshKeys flags_ec2); AkdOpen core true;
                   AkdAdd core "coreos-metadata"
                     (strings.Join ["ssh-ed25519 AAAA... key1"] LF) true true;
                   AkdSync core; AkdClose core].
Proof.
  apply (main_succeeds (machine id (ok region_fetched)) flags_ec2 empty_world
           ec2 region_fetched ["ssh-ed25519 AAAA... key1"] core).
  - reflexivity.
  - left. split; [|reflexivity]. intros [Hcmd _]. discriminate Hcmd.
  - reflexivity.
  - reflexivity.
  - discriminate.
  - apply fs_ok_machine.
  - intros w m. reflexivity.
  - discriminate.
  - intros w'. reflexivity.
  - intros w'. reflexivity.
  - intros w' content. reflexivity.
  - intros w'. reflexivity.
Defined.

Lemma writeMetadataKeys_store_sample :
  (fst (writeMetadataKeys no_open "core" sample_metadata keys_world)
   = Return (Some "permission denied")
   ∧ calls_since keys_world
       (snd (writeMetadataKeys no_open "core" sample_metadata keys_world))
     = [Lookup "core"; AkdOpen core true])
  ∧ (fst (writeMetadataKeys no_add "core" sample_metadata keys_world)
     = Return (Some "no space left on device")
     ∧ calls_since keys_world
         (snd (writeMetadataKeys no_add "core" sample_metadata keys_world))
       = [Lookup "core"; AkdOpen core true;
          AkdAdd core "coreos-metadata"
            (strings.Join
               (slice_content (heap keys_world) (SshKeys sample_metadata)) LF)
            true true;
          AkdClose core])
  ∧ (fst (writeMetadataKeys no_sync "core" sample_metadata keys_world)
     = Return (Some "input/output error")
     ∧ calls_since keys_world
         (snd (writeMetadataKeys no_sync "core" sample_metadata keys_world))
       = [Lookup "core"; AkdOpen core true;
          AkdAdd core "coreos-metadata"
            (strings.Join
               (slice_content (heap keys_world) (SshKeys sample_metadata)) LF)
            true true;
          AkdSync core; AkdClose core]).
Proof.
  split; [|split].
  - apply (proj1 (writeMetadataKeys_store no_open "core" sample_metadata
                    keys_world core ltac:(discriminate) ltac:(discriminate)
                    eq_refl)).
    reflexivity.
  - apply (proj1 (proj2 (writeMetadataKeys_store no_add "core" sample_metadata
                           keys_world core ltac:(discriminate)
                           ltac:(discriminate) eq_refl) eq_refl)).
    reflexivity.
  - apply (proj2 (proj2 (writeMetadataKeys_store no_sync "core" sample_metadata
                           keys_world core ltac:(discriminate)
                           ltac:(discriminate) eq_refl) eq_refl)).
    reflexivity.
Defined.

Lemma writeMetadataKeys_one_key_per_line_sample :
  ∃ content,
    AkdAdd core "coreos-metadata" content true true
      ∈ calls_since keys_world
          (snd (writeMetadataKeys forward "core" sample_metadata keys_world))
    ∧ strings.Split content "010"
      = slice_content (heap keys_world) (SshKeys sample_metadata).
Proof.
  apply (writeMetadataKeys_one_key_per_line forward "core" sample_metadata
           keys_world core).
  - discriminate.
  - discriminate.
  - discriminate.
  - repeat constructor.
  - reflexivity.
  - reflexivity.
Defined.

(** ** A write that fails *)

Lemma writeMetadataAttributes_range_write_fails E out e entries : ∀ w kv rest,
  (∀ w' data, file_Write E w' out data = Some e) →
  filter populated entries = kv :: rest →
  writeMetadataAttributes_range E out entries w
  = (Return (Some e), log (Write out (line kv)) w).
Proof.
  induction entries as [|[key value] entries IH]; intros w kv rest Hwrite Hpop;
    [done|].
  simpl. unfold mbind, M_bind, writeVariable.
  destruct (decide (populated (key, value))) as [Hkv|Hkv].
  - rewrite filter_cons_True in Hpop by done. injection Hpop as <- _.
    rewrite decide_True by by apply length_positive.
    unfold Write_. by rewrite Hwrite.
  - rewrite filter_cons_False in Hpop by done.
    rewrite decide_False
      by (intros Hlen; apply Hkv; exact (proj1 (length_positive value) Hlen)).
    cbn [mret M_ret]. by eapply IH.
Qed.

(** X22: when writing to the attribute file fails, the writer stops at the
    first line: it has made one [Write] call, closes the file and returns
    the error of that write to its caller (it does not end the process,
    unlike after a failed [MkdirAll] or [Create]). *)
Theorem writeMetadataAttributes_write_fails E attributes md w e :
  attributes ≠ "" →
  os_MkdirAll E w (path_Dir E attributes) 0x1ED = None →
  os_Create E (log (MkdirAll (path_Dir E attributes) 0x1ED) w) attributes
  = None →
  (∀ w' data, file_Write E w' attributes data = Some e) →
  (∀ w', filter populated
           (range_order E w' (map_content (heap w) (Attributes md))) ≠ []) →
  fst (writeMetadataAttributes E attributes md w) = Return (Some e)
  ∧ ∃ data,
      calls_since w (snd (writeMetadataAttributes E attributes md w))
      = [MkdirAll (path_Dir E attributes) 0x1ED; Create attributes;
         Write attributes data; Close attributes].
Proof.
  intros Hpath Hmkdir Hcreate Hwrite Hpop. unfold writeMetadataAttributes.
  rewrite decide_False by done.
  unfold mbind, M_bind, mret, M_ret, defer, MkdirAll_, Create_, Close_,
    range_map.
  rewrite Hmkdir. cbn beta iota. rewrite Hcreate. cbn beta iota.
  match goal with
  | |- context [writeMetadataAttributes_range E attributes ?entries ?w1] =>
    destruct (filter populated entries) as [|kv rest] eqn:Hfilter;
      [by destruct (Hpop w1)|];
    rewrite (writeMetadataAttributes_range_write_fails E attributes e entries
               w1 kv rest Hwrite Hfilter)
  end.
  cbn beta iota. split; [done|]. exists (line kv). apply calls_since_app.
  cbn [snd]. rewrite !trace_log, trace_set_files, !trace_log.
  by rewrite <- !app_assoc.
Qed.

Lemma writeMetadataAttributes_write_fails_sample :
  fst (writeMetadataAttributes disk_full "/run/metadata/coreos" sample_metadata
         sample_world) = Return (Some "disk full")
  ∧ ∃ data,
      calls_since sample_world
        (snd (writeMetadataAttributes disk_full "/run/metadata/coreos"
                sample_metadata sample_world))
      = [MkdirAll (path_Dir disk_full "/run/metadata/coreos") 0x1ED;
         Create "/run/metadata/coreos";
         Write "/run/metadata/coreos" data; Close "/run/metadata/coreos"].
Proof.
  apply (writeMetadataAttributes_write_fails disk_full "/run/metadata/coreos"
           sample_metadata sample_world "disk full").
  - discriminate.
  - reflexivity.
  - reflexivity.
  - intros w' data. reflexivity.
  - intros w'. discriminate.
Defined.
